(** * Case styles of the symbols of the standard library: [main.py]

    A shallow embedding of [main.py] and the properties of its three parts:
    the catalogue [CASES] of case styles with the classifier [real_case],
    the resolver [expected_case] of the style expected for an object, and
    the two nested tables [acc] and [counter] filled by the main loop. *)

From Stdlib Require Import Ascii String NArith.
From stdpp Require Import base option list gmap strings.

Local Open Scope string_scope.
Local Open Scope list_scope.

(** ** Exceptions

    Both functions of the source end with [raise ValueError(...)].  A call
    either returns a value or raises, and a raised exception is carried
    through the callers up to the top level. *)

Inductive exn : Type :=
| ValueError (msg : string).

Inductive result (A : Type) : Type :=
| Return (a : A)
| Raise (e : exn).
Arguments Return {A} a.
Arguments Raise {A} e.

Global Instance exn_eq_dec : EqDecision exn.
Proof. solve_decision. Defined.

Global Instance result_eq_dec `{EqDecision A} : EqDecision (result A).
Proof. solve_decision. Defined.

(** ** Regular expressions of Python's [re] module

    Only the syntax the catalogue uses: characters, classes [[...]] made of
    ranges, single and escaped characters, groups, alternation, and the
    postfix operators [*] and [+]. *)

Module Re.

Inductive item : Type :=
| Range (lo hi : ascii)
| Single (c : ascii).

Inductive regex : Type :=
| Void
| Eps
| Chr (c : ascii)
| Cls (items : list item)
| Cat (r1 r2 : regex)
| Alt (r1 r2 : regex)
| Star (r : regex)
| Plus (r : regex)
| Group (r : regex).

Global Instance item_eq_dec : EqDecision item.
Proof. solve_decision. Defined.

Global Instance regex_eq_dec : EqDecision regex.
Proof. solve_decision. Defined.

Definition in_item (c : ascii) (i : item) : bool :=
  match i with
  | Range lo hi => (N_of_ascii lo <=? N_of_ascii c)%N && (N_of_ascii c <=? N_of_ascii hi)%N
  | Single c' => Ascii.eqb c c'
  end.

Definition in_class (c : ascii) (items : list item) : bool :=
  existsb (in_item c) items.

(** *** The language of a pattern *)

Inductive matches : regex → string → Prop :=
| m_eps : matches Eps ""
| m_chr c : matches (Chr c) (String c "")
| m_cls c items : in_class c items = true → matches (Cls items) (String c "")
| m_cat r1 r2 s1 s2 : matches r1 s1 → matches r2 s2 → matches (Cat r1 r2) (s1 +:+ s2)
| m_alt_l r1 r2 s : matches r1 s → matches (Alt r1 r2) s
| m_alt_r r1 r2 s : matches r2 s → matches (Alt r1 r2) s
| m_star_nil r : matches (Star r) ""
| m_star_cons r s1 s2 : matches r s1 → matches (Star r) s2 → matches (Star r) (s1 +:+ s2)
| m_plus r s1 s2 : matches r s1 → matches (Star r) s2 → matches (Plus r) (s1 +:+ s2)
| m_group r s : matches r s → matches (Group r) s.

(** *** Matching by derivatives *)

Fixpoint nullable (r : regex) : bool :=
  match r with
  | Void => false
  | Eps => true
  | Chr _ => false
  | Cls _ => false
  | Cat r1 r2 => nullable r1 && nullable r2
  | Alt r1 r2 => nullable r1 || nullable r2
  | Star _ => true
  | Plus r => nullable r
  | Group r => nullable r
  end.

Definition cat (r1 r2 : regex) : regex :=
  match r1, r2 with
  | Void, _ => Void
  | _, Void => Void
  | Eps, _ => r2
  | _, _ => Cat r1 r2
  end.

Definition alt (r1 r2 : regex) : regex :=
  match r1, r2 with
  | Void, _ => r2
  | _, Void => r1
  | _, _ => Alt r1 r2
  end.

Fixpoint deriv (c : ascii) (r : regex) : regex :=
  match r with
  | Void => Void
  | Eps => Void
  | Chr c' => if Ascii.eqb c c' then Eps else Void
  | Cls items => if in_class c items then Eps else Void
  | Cat r1 r2 =>
      if nullable r1 then alt (cat (deriv c r1) r2) (deriv c r2)
      else cat (deriv c r1) r2
  | Alt r1 r2 => alt (deriv c r1) (deriv c r2)
  | Star r => cat (deriv c r) (Star r)
  | Plus r => cat (deriv c r) (Star r)
  | Group r => deriv c r
  end.

(** [reg.fullmatch(s)] is truthy when the whole of [s] is in the language of
    [reg]: for patterns of this syntax the search of [re], which tries every
    way to split the string, finds a match exactly when there is one. *)
Fixpoint fullmatch (r : regex) (s : string) : bool :=
  match s with
  | EmptyString => nullable r
  | String c s' => fullmatch (deriv c r) s'
  end.

(** *** [re.compile]: from the text of a pattern to its syntax tree *)

Definition is_char (c d : ascii) : bool := Ascii.eqb c d.

Definition is_alnum (c : ascii) : bool :=
  in_class c [Range "a" "z"; Range "A" "Z"; Range "0" "9"].

(** The characters with a meaning of their own outside a class; apart from
    the ones handled below, a pattern that uses one is not supported. *)
Definition is_special (c : ascii) : bool :=
  in_class c [Single "*"; Single "+"; Single "?"; Single "."; Single "^";
              Single "$"; Single "{"; Single "}"; Single "]"].

(** The items of a class, up to its closing bracket. *)
Fixpoint parse_items (fuel : nat) (s : string) : option (list item * string) :=
  match fuel with
  | O => None
  | S fuel =>
      match s with
      | EmptyString => None
      | String c s1 =>
          if is_char c "]" then Some ([], s1)
          else if is_char c "\" then
            match s1 with
            | String e s2 =>
                if is_alnum e then None
                else '(items, rest) ← parse_items fuel s2; Some (Single e :: items, rest)
            | EmptyString => None
            end
          else if is_char c "[" || is_char c "^" then None
          else
            match s1 with
            | String d (String hi s3) =>
                if is_char d "-" && negb (is_char hi "]") then
                  '(items, rest) ← parse_items fuel s3; Some (Range c hi :: items, rest)
                else
                  '(items, rest) ← parse_items fuel s1; Some (Single c :: items, rest)
            | _ => '(items, rest) ← parse_items fuel s1; Some (Single c :: items, rest)
            end
      end
  end.

(** The postfix operators that follow an atom. *)
Fixpoint parse_postfix (r : regex) (s : string) : regex * string :=
  match s with
  | String c s' =>
      if is_char c "*" then parse_postfix (Star r) s'
      else if is_char c "+" then parse_postfix (Plus r) s'
      else (r, s)
  | EmptyString => (r, s)
  end.

Fixpoint parse_alt (fuel : nat) (s : string) : option (regex * string) :=
  match fuel with
  | O => None
  | S fuel =>
      '(r1, rest) ← parse_seq fuel s;
      match rest with
      | String c rest' =>
          if is_char c "|" then
            '(r2, rest'') ← parse_alt fuel rest'; Some (Alt r1 r2, rest'')
          else Some (r1, rest)
      | EmptyString => Some (r1, rest)
      end
  end
with parse_seq (fuel : nat) (s : string) : option (regex * string) :=
  match fuel with
  | O => None
  | S fuel =>
      match s with
      | EmptyString => Some (Eps, s)
      | String c s' =>
          if is_char c "|" || is_char c ")" then Some (Eps, s)
          else
            '(a, rest) ← parse_atom fuel s;
            let '(p, rest') := parse_postfix a rest in
            '(r, rest'') ← parse_seq fuel rest';
            Some (match r with Eps => p | _ => Cat p r end, rest'')
      end
  end
with parse_atom (fuel : nat) (s : string) : option (regex * string) :=
  match fuel with
  | O => None
  | S fuel =>
      match s with
      | EmptyString => None
      | String c s' =>
          if is_char c "(" then
            '(r, rest) ← parse_alt fuel s';
            match rest with
            | String d rest' => if is_char d ")" then Some (Group r, rest') else None
            | EmptyString => None
            end
          else if is_char c "[" then
            '(items, rest) ← parse_items fuel s'; Some (Cls items, rest)
          else if is_char c "\" then
            match s' with
            | String e rest => if is_alnum e then None else Some (Chr e, rest)
            | EmptyString => None
            end
          else if is_special c then None
          else Some (Chr c, s')
      end
  end.

(** A pattern outside the supported syntax compiles to [Void]; none of the
    catalogue does (see [CASES_regexes]). *)
Definition compile (pattern : string) : regex :=
  match parse_alt (3 * String.length pattern + 3) pattern with
  | Some (r, EmptyString) => r
  | _ => Void
  end.

End Re.

Import Re.

(** ** The catalogue of case styles

    [CASES] is a dict from compiled patterns to the names of the styles; the
    loop of [real_case] goes through its items in insertion order.  The twelve
    patterns are pairwise distinct, so the dict has the twelve items of the
    literal, in the order of the literal. *)

Definition CASES : list (regex * string) :=
  [ (compile "[A-Z][a-z0-9]*([A-Z][a-z0-9]*)*", "MixedCase");
    (compile "[a-z_0-9]+", "snake_case");
    (compile "[a-z0-9]+([A-Z][a-z0-9]*)*", "camelCase");
    (compile "[A-Z][a-z0-9]*(_[a-z0-9]+)*", "Mixed_snake_case");
    (compile "[A-Z0-9_]+", "UPPER_CASE");
    (compile "[A-Z][a-z0-9]*(_[A-Z][a-z0-9]*)*", "Mixed_Snake_Case");
    (compile "([a-z0-9]+[A-Z][a-z0-9]+|[a-z0-9]+)(_([a-z0-9]+[A-Z][a-z0-9]+|[a-z0-9]+))+",
     "snakeCamel_case");
    (compile "([a-z0-9]+|[A-Z0-9]+)(_([a-z0-9]+|[A-Z0-9]+))+", "changing_CASE");
    (* Very special cases *)
    (compile "Py[A-Z0-9]*(_([A-Z0-9]+|[A-Z0-9]+))+", "Py_CASES");
    (compile "[A-Z0-9]*(_([A-Z0-9]+|[A-Z0-9]+))*_[A-Z0-9]+[_a-z0-9]+", "LOWFINAL_CAse");
    (compile "[A-Z0-9_]+v[0-9\.]+[_A-Z0-9]+", "VERSIONv1.1_CASE");
    (compile "", "_") ].

(** ** [str.lstrip] *)

Fixpoint string_mem (c : ascii) (chars : string) : bool :=
  match chars with
  | EmptyString => false
  | String d chars' => Ascii.eqb c d || string_mem c chars'
  end.

Fixpoint lstrip (chars : string) (s : string) : string :=
  match s with
  | EmptyString => s
  | String c s' => if string_mem c chars then lstrip chars s' else s
  end.

Fixpoint repeat_char (c : ascii) (n : nat) : string :=
  match n with
  | O => ""
  | S n => String c (repeat_char c n)
  end.

(** ** [real_case] *)

Fixpoint real_case_loop (items : list (regex * string)) (name : string) : result string :=
  match items with
  | (reg, case) :: items' =>
      if fullmatch reg (lstrip "_" name) then Return case
      else real_case_loop items' name
  | [] => Raise (ValueError ("Word " +:+ name +:+ " have no case"))
  end.

Definition real_case (name : string) : result string :=
  real_case_loop CASES name.

(** The classes and words the patterns of the catalogue are made of. *)
Definition lower : regex := Cls [Range "a" "z"; Range "0" "9"].
Definition upper : regex := Cls [Range "A" "Z"; Range "0" "9"].
Definition capital : regex := Cls [Range "A" "Z"].
Definition camel_word : regex := Cat (Plus lower) (Cat capital (Plus lower)).
Definition any_word : regex := Group (Alt (Plus lower) (Plus upper)).
Definition upper_word : regex := Group (Alt (Plus upper) (Plus upper)).

(** An item whose pattern does not match the whole of [s]. *)
Definition no_match (s : string) (e : regex * string) : Prop := ¬ matches e.1 s.

(** ** Objects and their types

    What [expected_case] and the main loop ask of an object: its type, the
    classes its type inherits from, and the text [str] gives for it.  A class
    is known by its name, the rest of its [__mro__] ([object], which ends
    every [__mro__], is left out) and the [__mro__] of its metaclass up to
    [type] ([type] and [object] are left out). *)

Record pyclass : Type := PyClass {
  cls_name : string;
  cls_bases : list string;
  cls_meta : list string;
}.

Inductive object : Type :=
| Instance (cls : pyclass) (text : string)
| Class (cls : pyclass).

Definition mro (c : pyclass) : list string :=
  cls_name c :: cls_bases c ++ ["object"].

Definition type_class : pyclass :=
  {| cls_name := "type"; cls_bases := []; cls_meta := [] |}.

Definition metaclass (c : pyclass) : pyclass :=
  match cls_meta c with
  | [] => type_class
  | m :: ms => {| cls_name := m; cls_bases := ms ++ ["type"]; cls_meta := [] |}
  end.

Definition class_of (obj : object) : pyclass :=
  match obj with
  | Instance cls _ => cls
  | Class cls => metaclass cls
  end.

(** [type(obj)]: every object has a type, and the type of an object is a
    class, whose own type is its metaclass. *)
Definition type_ (obj : object) : object := Class (class_of obj).

(** [str(obj)] *)
Definition str (obj : object) : string :=
  match obj with
  | Instance _ text => text
  | Class cls => "<class '" +:+ cls_name cls +:+ "'>"
  end.

(** [isinstance(obj, classes)] for a tuple of classes: the type of [obj] has
    one of them in its [__mro__]. *)
Definition isinstance (obj : object) (classes : list string) : bool :=
  existsb (λ c, bool_decide (c ∈ mro (class_of obj))) classes.

(** The three predicates of [inspect]: [isinstance] of [type], of
    [types.FunctionType] and of [types.ModuleType]. *)
Definition isclass (obj : object) : bool := isinstance obj ["type"].
Definition isfunction (obj : object) : bool := isinstance obj ["function"].
Definition ismodule (obj : object) : bool := isinstance obj ["module"].

Global Instance pyclass_eq_dec : EqDecision pyclass.
Proof. solve_decision. Defined.

Global Instance object_eq_dec : EqDecision object.
Proof. solve_decision. Defined.

Global Instance pyclass_countable : Countable pyclass.
Proof.
  refine (inj_countable' (λ c, (cls_name c, cls_bases c, cls_meta c))
            (λ '(n, b, m), PyClass n b m) _).
  by intros [].
Defined.

Global Instance object_countable : Countable object.
Proof.
  refine (inj_countable'
            (λ obj, match obj with
                    | Instance cls text => inl (cls, text)
                    | Class cls => inr cls
                    end)
            (λ x, match x with
                  | inl (cls, text) => Instance cls text
                  | inr cls => Class cls
                  end) _).
  by intros [].
Defined.

(** ** [expected_case] *)

Definition type_to_case : list ((object → bool) * string) :=
  [ (isclass, "MixedCase");
    (isfunction, "snake_case");
    (ismodule, "snake_case");
    (λ x, isinstance x ["str"; "bytes"; "int"; "float"; "list"; "tuple"; "set";
                        "frozenset"; "dict"],
     "UPPER_CASE");
    (λ x, isclass (type_ x), "UPPER_CASE") ].

Definition not_handled (obj : object) (lib_name : string) : exn :=
  ValueError ("Object '" +:+ str obj +:+ "' of type " +:+ str (type_ obj)
              +:+ " found in lib '" +:+ lib_name
              +:+ "' is not handled by expected_case function").

Fixpoint expected_case_loop (items : list ((object → bool) * string))
    (obj : object) (lib_name : string) : result string :=
  match items with
  | (is_type, case) :: items' =>
      if is_type obj then Return case else expected_case_loop items' obj lib_name
  | [] => Raise (not_handled obj lib_name)
  end.

Definition expected_case (obj : object) (lib_name : string) : result string :=
  expected_case_loop type_to_case obj lib_name.

(** An item whose predicate does not hold of [obj]. *)
Definition not_type (obj : object) (e : (object → bool) * string) : Prop :=
  e.1 obj = false.

(** ** The main loop and its two tables *)

(** A [defaultdict]: reading a missing key stores the value of the factory
    under it and returns that value.  [at_key missing k f d] is the dict after
    [d[k]] has been read and the value under [k] changed by [f] in place. *)
Definition getitem {V} (missing : V) (k : string) (d : gmap string V) : V :=
  default missing (d !! k).

Definition at_key {V} (missing : V) (k : string) (f : V → V)
    (d : gmap string V) : gmap string V :=
  <[k := f (getitem missing k d)]> d.

Record tables : Type := Tables {
  acc : gmap string (gmap string (gmap string (gset (object * string))));
  counter : gmap string (gmap string (gmap string nat));
}.

Definition empty_tables : tables := {| acc := ∅; counter := ∅ |}.

(** Statements change the tables and may raise; an exception stops the run,
    with the tables as they are at that point. *)
Definition M (A : Type) : Type := tables → result A * tables.

Definition ret {A} (a : A) : M A := λ t, (Return a, t).

Definition bind {A B} (m : M A) (k : A → M B) : M B :=
  λ t, match m t with
       | (Return a, t') => k a t'
       | (Raise e, t') => (Raise e, t')
       end.

Definition call {A} (r : result A) : M A := λ t, (r, t).

Definition on_acc (f : gmap string (gmap string (gmap string (gset (object * string)))) →
                       gmap string (gmap string (gmap string (gset (object * string)))))
  : M unit := λ t, (Return tt, {| acc := f (acc t); counter := counter t |}).

Definition on_counter (f : gmap string (gmap string (gmap string nat)) →
                           gmap string (gmap string (gmap string nat)))
  : M unit := λ t, (Return tt, {| acc := acc t; counter := f (counter t) |}).

Global Instance M_ret : MRet M := @ret.
Global Instance M_bind : MBind M := λ A B k m, bind m k.

(** The body of the loop: the two statements, their subscripts evaluated from
    left to right, each one creating the key it misses. *)
Definition record (lib_name : string) (obj : object) (obj_name : string) : M unit :=
  on_acc (at_key ∅ lib_name id);;
  e ← call (expected_case obj "");
  on_acc (at_key ∅ lib_name (at_key ∅ e id));;
  r ← call (real_case obj_name);
  on_acc (at_key ∅ lib_name
            (at_key ∅ e (at_key ∅ r (λ s, {[ (type_ obj, obj_name) ]} ∪ s))));;
  on_counter (at_key ∅ lib_name id);;
  e ← call (expected_case obj "");
  on_counter (at_key ∅ lib_name (at_key ∅ e id));;
  r ← call (real_case obj_name);
  on_counter (at_key ∅ lib_name (at_key ∅ e (at_key 0 r S))).

(** [importlib.import_module], as far as the loop goes on from it: it raises
    [ImportError], which [objects_in_lib] catches, or it gives a module, of
    which the loop reads the items of [__dict__].  An import that raises
    anything else ends the run where it stands; the runs of [main] are those
    in which no import does. *)
Inductive imported : Type :=
| ImportError (msg : string)
| Module (dict : list (string * object)).

Definition startswith (prefix s : string) : bool := String.prefix prefix s.

(** The objects [objects_in_lib] yields; what it prints on an import error is
    left out.  [import_module] stands for what the imports give at the time
    of the scan: an import may bind names in modules imported before. *)
Definition objects_in_lib (import_module : string → imported) (lib_name : string)
  : list (object * string) :=
  match import_module lib_name with
  | ImportError _ => []
  | Module dict =>
      (λ item, (item.2, item.1)) <$>
        filter (λ item, startswith "__" item.1 = false) dict
  end.

Fixpoint for_objects (lib_name : string) (objects : list (object * string)) : M unit :=
  match objects with
  | [] => ret tt
  | (obj, obj_name) :: objects' =>
      record lib_name obj obj_name;; for_objects lib_name objects'
  end.

Fixpoint for_libs (import_module : string → imported) (libs_names : list string) : M unit :=
  match libs_names with
  | [] => ret tt
  | lib_name :: libs_names' =>
      for_objects lib_name (objects_in_lib import_module lib_name);;
      for_libs import_module libs_names'
  end.

(** The run of the main loop from the two empty tables. *)
Definition main (import_module : string → imported) (libs_names : list string)
  : result unit * tables :=
  for_libs import_module libs_names empty_tables.

(** The observations of a run, in order: library, object, name. *)
Definition observations (import_module : string → imported) (libs_names : list string)
  : list (string * object * string) :=
  lib_name ← libs_names;
  (λ o, (lib_name, o.1, o.2)) <$> objects_in_lib import_module lib_name.

(** ** What the tables are read for

    The reads of the two tables, and the observations a path stands for. *)

(** [d[lib][e]], read as a [defaultdict] does, and the value under the path
    [lib], [e], [r] when the three keys are there. *)
Definition lookup2 {V} (d : gmap string (gmap string (gmap string V)))
    (lib e : string) : gmap string V :=
  getitem ∅ e (getitem ∅ lib d).

Definition lookup3 {V} (d : gmap string (gmap string (gmap string V)))
    (lib e r : string) : option V :=
  match d !! lib with
  | Some d1 => match d1 !! e with
               | Some d2 => d2 !! r
               | None => None
               end
  | None => None
  end.

(** [sum(d.values())] *)
Definition sum_values (d : gmap string nat) : nat :=
  map_fold (λ _ n total, n + total) 0 d.

(** The observations filed under a path, and the pairs they add to the set. *)
Definition on_path (lib e r : string) (o : string * object * string) : Prop :=
  o.1.1 = lib ∧ expected_case o.1.2 "" = Return e ∧ real_case o.2 = Return r.

Definition expected_in (lib e : string) (o : string * object * string) : Prop :=
  o.1.1 = lib ∧ expected_case o.1.2 "" = Return e.

Global Instance on_path_dec lib e r o : Decision (on_path lib e r o).
Proof. unfold on_path. apply _. Defined.

Global Instance expected_in_dec lib e o : Decision (expected_in lib e o).
Proof. unfold expected_in. apply _. Defined.

Definition pairs (obs : list (string * object * string)) (lib e r : string)
  : list (object * string) :=
  (λ o, (type_ o.1.2, o.2)) <$> filter (on_path lib e r) obs.

(** What the tables hold after the observations [obs]. *)

Definition count_of (l : list (object * string)) : option nat :=
  match l with [] => None | _ => Some (length l) end.

Definition set_of (l : list (object * string)) : option (gset (object * string)) :=
  match l with [] => None | _ => Some (list_to_set l) end.

Definition consistent (obs : list (string * object * string)) (t : tables) : Prop :=
  ∀ lib e,
    sum_values (lookup2 (counter t) lib e) = length (filter (expected_in lib e) obs) ∧
    ∀ r,
      lookup2 (counter t) lib e !! r = count_of (pairs obs lib e r) ∧
      lookup2 (acc t) lib e !! r = set_of (pairs obs lib e r).

(** ** Sample data *)

(** Some objects of the standard library. *)
Definition builtin (name : string) (bases : list string) : pyclass :=
  {| cls_name := name; cls_bases := bases; cls_meta := [] |}.
Definition an_int : object := Instance (builtin "int" []) "10".
Definition a_bool : object := Instance (builtin "bool" ["int"]) "True".
Definition a_str : object := Instance (builtin "str" []) "logging".
Definition a_function : object := Instance (builtin "function" []) "<function getLogger>".
Definition a_module : object := Instance (builtin "module" []) "<module 'os'>".
Definition a_builtin_function : object :=
  Instance (builtin "builtin_function_or_method" []) "<built-in function len>".
Definition a_logger : object :=
  Instance (builtin "RootLogger" ["Logger"; "Filterer"]) "<RootLogger root (WARNING)>".
Definition a_class : object := Class (builtin "Logger" ["Filterer"]).
Definition an_abstract_class : object :=
  Class {| cls_name := "Sized"; cls_bases := []; cls_meta := ["ABCMeta"] |}.

(** A small world of libraries: [logging], a library with a name of no
    style, and nothing else. *)
Definition sample_import (lib_name : string) : imported :=
  if String.eqb lib_name "logging" then
    Module [ ("__name__", a_str);
             ("os", a_module);
             ("getLogger", a_function);
             ("DEBUG", an_int);
             ("raiseExceptions", a_bool);
             ("root", a_logger);
             ("Logger", a_class) ]
  else if String.eqb lib_name "odd" then
    Module [ ("Sized", an_abstract_class); ("fooBar_BAZ", an_int); ("len", a_builtin_function) ]
  else ImportError "No module named".

(** A run in which [logging] is read twice and [nope] cannot be imported. *)
Definition sample_libs : list string := ["logging"; "nope"; "logging"].

Definition sample_tables : tables := (main sample_import sample_libs).2.

(** ** Reading a name character by character *)

Fixpoint all_chars (p : ascii → bool) (s : string) : bool :=
  match s with
  | EmptyString => true
  | String c s' => p c && all_chars p s'
  end.

Fixpoint some_char (p : ascii → bool) (s : string) : bool :=
  match s with
  | EmptyString => false
  | String c s' => p c || some_char p s'
  end.

(** The classes of characters the patterns of the catalogue are written with. *)
Definition is_capital (c : ascii) : bool := in_class c [Range "A" "Z"].
Definition is_small (c : ascii) : bool := in_class c [Range "a" "z"; Range "0" "9"].
Definition is_snake (c : ascii) : bool :=
  in_class c [Range "a" "z"; Single "_"; Range "0" "9"].
Definition is_name_char (c : ascii) : bool :=
  in_class c [Range "A" "Z"; Range "a" "z"; Range "0" "9"; Single "_"; Single "."].

(** The characters some class or character of a pattern takes. *)
Fixpoint accepts (r : regex) (c : ascii) : bool :=
  match r with
  | Void | Eps => false
  | Chr c' => Ascii.eqb c c'
  | Cls items => in_class c items
  | Cat r1 r2 | Alt r1 r2 => accepts r1 c || accepts r2 c
  | Star r | Plus r | Group r => accepts r c
  end.

(** What is left of the pattern of [MixedCase] after its first capital, and
    of the pattern of [camelCase] after its first small letter or digit. *)
Definition word_tail : regex :=
  Cat (Star lower) (Star (Group (Cat capital (Star lower)))).

(** ** The run, observation by observation *)

(** The two statements of the body of the loop when neither call raises:
    the pair is added to the set and the count goes up by one, under the
    same path. *)
Definition file (lib e r : string) (x : object * string) (t : tables) : tables :=
  {| acc := at_key ∅ lib (at_key ∅ e (at_key ∅ r (λ s, {[ x ]} ∪ s))) (acc t);
     counter := at_key ∅ lib (at_key ∅ e (at_key 0 r S)) (counter t) |}.

Definition file_obs (t : tables) (o : string * object * string) : tables :=
  match expected_case o.1.2 "", real_case o.2 with
  | Return e, Return r => file o.1.1 e r (type_ o.1.2, o.2) t
  | _, _ => t
  end.

(** The body of the loop, run over a sequence of observations: what the
    two nested [for] do once the generators have yielded the sequence
    ([for_libs_for_obs]).  What importing does or raises is not part of
    it. *)
Fixpoint for_obs (obs : list (string * object * string)) : M unit :=
  match obs with
  | [] => ret tt
  | (lib_name, obj, obj_name) :: obs' => record lib_name obj obj_name;; for_obs obs'
  end.

(** An observation whose name has a style. *)
Definition styled (o : string * object * string) : Prop :=
  ∃ r, real_case o.2 = Return r.

(** The two comprehensions that follow the loop: the nested [defaultdict]s
    are copied, key by key, into plain dicts, in which a missing key is no
    longer created when it is read. *)
Definition simplify {V} (d : gmap string (gmap string (gmap string V)))
  : gmap string (gmap string (gmap string V)) :=
  (λ expcs : gmap string (gmap string V),
     (λ realcs : gmap string V, (λ values : V, values) <$> realcs) <$> expcs) <$> d.

(** A second small world: a library in which [_] is a function, read from a
    list in which a library cannot be imported. *)
Definition a_list : object := Instance (builtin "list" []) "['_', 'gettext']".

Definition gettext_import (lib_name : string) : imported :=
  if String.eqb lib_name "gettext" then
    Module [ ("__all__", a_list); ("_", a_function); ("__private", an_int);
             ("gettext", a_function) ]
  else if String.eqb lib_name "logging" then sample_import "logging"
  else ImportError "No module named".

(** A third one, with a single library of a single public name. *)
Definition tiny_import (lib_name : string) : imported :=
  if String.eqb lib_name "tiny" then Module [ ("__doc__", a_str); ("x", an_int) ]
  else if String.eqb lib_name "odd" then Module [ ("fooBar_BAZ", an_int) ]
  else ImportError "No module named".

(** ** Instances and callables *)

(** [obj] is an instance of the class named [c]: [c] is in the [__mro__] of
    the type of [obj]. *)
Definition instance_of (obj : object) (c : string) : Prop :=
  c ∈ mro (class_of obj).

(** [callable(obj)] for the objects told apart here: the classes and the
    instances of the built-in types of functions, methods and partial
    applications.  An instance of a class that defines [__call__] is
    callable as well; the record of a class does not say whether it does. *)
Definition callable (obj : object) : bool :=
  isinstance obj ["type"; "function"; "builtin_function_or_method"; "method"; "partial"].

(** Two short sequences of observations, the second with a name of no
    style. *)
Definition styled_obs : list (string * object * string) :=
  [ ("tiny", an_int, "x") ].

Definition unstyled_obs : list (string * object * string) :=
  [ ("tiny", an_int, "x"); ("odd", an_int, "fooBar_BAZ"); ("tiny", a_str, "y") ].

(** * Proofs *)

(** ** The derivative matcher decides the language *)

Lemma append_empty s1 s2 : s1 +:+ s2 = "" → s1 = "" ∧ s2 = "".
Proof. destruct s1; simpl; [tauto | discriminate]. Qed.

Lemma matches_void s : ¬ matches Void s.
Proof. inversion 1. Qed.

Lemma matches_eps s : matches Eps s → s = "".
Proof. by inversion 1. Qed.

Lemma matches_cat r1 r2 s :
  matches (Cat r1 r2) s ↔ ∃ s1 s2, s = s1 +:+ s2 ∧ matches r1 s1 ∧ matches r2 s2.
Proof.
  split.
  - inversion 1; subst; eauto.
  - intros (s1 & s2 & -> & H1 & H2). by constructor.
Qed.

Lemma matches_alt r1 r2 s : matches (Alt r1 r2) s ↔ matches r1 s ∨ matches r2 s.
Proof.
  split.
  - inversion 1; subst; auto.
  - intros [H | H]; [by apply m_alt_l | by apply m_alt_r].
Qed.

Lemma nullable_spec r : nullable r = true ↔ matches r "".
Proof.
  split.
  - induction r; simpl; intros H; try discriminate.
    + constructor.
    + apply andb_prop in H as [H1 H2]. apply (m_cat _ _ "" ""); auto.
    + apply orb_prop in H as [H | H]; [apply m_alt_l | apply m_alt_r]; auto.
    + constructor.
    + apply (m_plus _ "" ""); [auto | constructor].
    + constructor; auto.
  - intros H. remember "" as s eqn:Hs. induction H; simpl; try discriminate; auto.
    + apply append_empty in Hs as [-> ->]. by rewrite IHmatches1, IHmatches2.
    + by rewrite IHmatches.
    + rewrite IHmatches; auto. apply orb_true_r.
    + apply append_empty in Hs as [-> ->]. auto.
Qed.

Lemma matches_cat_eps r s : matches r s ↔ matches (Cat Eps r) s.
Proof.
  rewrite matches_cat. split.
  - intros H. exists "", s. split; [done | split; [apply m_eps | done]].
  - by intros (? & ? & -> & ->%matches_eps & ?).
Qed.

Lemma cat_spec r1 r2 s : matches (cat r1 r2) s ↔ matches (Cat r1 r2) s.
Proof.
  destruct r1, r2; simpl; try tauto; try apply matches_cat_eps; rewrite matches_cat;
    try (split; [by intros ?%matches_void | by intros (? & ? & _ & ?%matches_void & _)]);
    try (split; [by intros ?%matches_void | by intros (? & ? & _ & _ & ?%matches_void)]).
Qed.

Lemma alt_spec r1 r2 s : matches (alt r1 r2) s ↔ matches (Alt r1 r2) s.
Proof.
  rewrite matches_alt.
  destruct r1, r2; simpl; rewrite ?matches_alt; try tauto;
    split; try tauto; intros [H | H]; try done; by apply matches_void in H.
Qed.

Lemma deriv_sound c r : ∀ s, matches (deriv c r) s → matches r (String c s).
Proof.
  induction r; simpl; intros s H.
  - by apply matches_void in H.
  - by apply matches_void in H.
  - destruct (Ascii.eqb_spec c c0) as [<- | _]; [| by apply matches_void in H].
    apply matches_eps in H as ->. constructor.
  - destruct (in_class c items) eqn:Hc; [| by apply matches_void in H].
    apply matches_eps in H as ->. by constructor.
  - assert (Hl : ∀ t, matches (cat (deriv c r1) r2) t → matches (Cat r1 r2) (String c t)).
    { intros t (s1 & s2 & -> & H1 & H2)%cat_spec%matches_cat.
      apply (m_cat _ _ (String c s1) s2); auto. }
    destruct (nullable r1) eqn:Hn; [| by apply Hl].
    apply alt_spec, matches_alt in H as [H | H]; [by apply Hl |].
    apply (m_cat _ _ "" (String c s)); [by apply nullable_spec | auto].
  - apply alt_spec, matches_alt in H as [H | H]; [apply m_alt_l | apply m_alt_r]; auto.
  - apply cat_spec, matches_cat in H as (s1 & s2 & -> & H1 & H2).
    apply (m_star_cons _ (String c s1) s2); auto.
  - apply cat_spec, matches_cat in H as (s1 & s2 & -> & H1 & H2).
    apply (m_plus _ (String c s1) s2); auto.
  - constructor; auto.
Qed.

Lemma deriv_complete c r s : matches r (String c s) → matches (deriv c r) s.
Proof.
  intros H. remember (String c s) as t eqn:Ht. revert s Ht.
  induction H; intros t Ht; simpl; try discriminate.
  - injection Ht as -> <-. rewrite Ascii.eqb_refl. constructor.
  - injection Ht as -> <-. rewrite H. constructor.
  - destruct s1 as [| c1 s1]; cbv [String.append] in Ht; fold String.append in Ht.
    + subst s2. apply nullable_spec in H as ->.
      apply alt_spec, m_alt_r. auto.
    + injection Ht as -> <-.
      assert (matches (cat (deriv c r1) r2) (s1 +:+ s2)).
      { apply cat_spec. constructor; auto. }
      destruct (nullable r1); [by apply alt_spec, m_alt_l | done].
  - apply alt_spec, m_alt_l; auto.
  - apply alt_spec, m_alt_r; auto.
  - destruct s1 as [| c1 s1]; cbv [String.append] in Ht; fold String.append in Ht.
    + by apply IHmatches2.
    + injection Ht as -> <-. apply cat_spec. constructor; auto.
  - destruct s1 as [| c1 s1]; cbv [String.append] in Ht; fold String.append in Ht.
    + by apply IHmatches2.
    + injection Ht as -> <-. apply cat_spec. constructor; auto.
  - auto.
Qed.

(** [fullmatch] holds exactly on the strings of the pattern's language: the
    whole string is consumed, a matching substring is not enough. *)
Lemma fullmatch_spec r s : fullmatch r s = true ↔ matches r s.
Proof.
  revert r. induction s as [| c s IH]; intros r; simpl.
  - apply nullable_spec.
  - rewrite IH. split; [apply deriv_sound | apply deriv_complete].
Qed.

(** ** Properties of the classifier *)

(** The syntax trees [re.compile] gives for the twelve patterns. *)
Lemma CASES_regexes :
  CASES.*1 =
  [ Cat capital (Cat (Star lower) (Star (Group (Cat capital (Star lower)))));
    Plus (Cls [Range "a" "z"; Single "_"; Range "0" "9"]);
    Cat (Plus lower) (Star (Group (Cat capital (Star lower))));
    Cat capital (Cat (Star lower) (Star (Group (Cat (Chr "_") (Plus lower)))));
    Plus (Cls [Range "A" "Z"; Range "0" "9"; Single "_"]);
    Cat capital
      (Cat (Star lower) (Star (Group (Cat (Chr "_") (Cat capital (Star lower))))));
    Cat (Group (Alt camel_word (Plus lower)))
      (Plus (Group (Cat (Chr "_") (Group (Alt camel_word (Plus lower))))));
    Cat any_word (Plus (Group (Cat (Chr "_") any_word)));
    Cat (Chr "P")
      (Cat (Chr "y") (Cat (Star upper) (Plus (Group (Cat (Chr "_") upper_word)))));
    Cat (Star upper)
      (Cat (Star (Group (Cat (Chr "_") upper_word)))
         (Cat (Chr "_")
            (Cat (Plus upper) (Plus (Cls [Single "_"; Range "a" "z"; Range "0" "9"])))));
    Cat (Plus (Cls [Range "A" "Z"; Range "0" "9"; Single "_"]))
      (Cat (Chr "v")
         (Cat (Plus (Cls [Range "0" "9"; Single "."]))
            (Plus (Cls [Single "_"; Range "A" "Z"; Range "0" "9"]))));
    Eps ].
Proof. reflexivity. Qed.

(** The keys of the dict are pairwise distinct: no item of the literal
    replaces another one. *)
Lemma CASES_patterns_distinct : NoDup CASES.*1.
Proof. rewrite CASES_regexes. by apply (bool_decide_unpack _). Qed.

Lemma CASES_labels :
  CASES.*2 =
  [ "MixedCase"; "snake_case"; "camelCase"; "Mixed_snake_case"; "UPPER_CASE";
    "Mixed_Snake_Case"; "snakeCamel_case"; "changing_CASE"; "Py_CASES";
    "LOWFINAL_CAse"; "VERSIONv1.1_CASE"; "_" ].
Proof. reflexivity. Qed.

(** *** [lstrip] removes the longest prefix of underscores *)

Lemma lstrip_underscores name :
  ∃ k, name = repeat_char "_" k +:+ lstrip "_" name.
Proof.
  induction name as [| c name [k IH]]; [by exists 0 |].
  simpl. destruct (Ascii.eqb_spec c "_") as [-> | _]; simpl.
  - exists (S k). exact (f_equal (String "_") IH).
  - by exists 0.
Qed.

Lemma lstrip_no_underscore name rest : lstrip "_" name ≠ String "_" rest.
Proof.
  induction name as [| c name IH]; [done |].
  simpl. destruct (Ascii.eqb_spec c "_") as [-> | Hc]; simpl; [done |].
  intros [= -> _]. done.
Qed.

Lemma lstrip_repeat_char k s :
  (∀ rest, s ≠ String "_" rest) → lstrip "_" (repeat_char "_" k +:+ s) = s.
Proof.
  intros Hs. induction k as [| k IH]; [| done].
  change (lstrip "_" s = s). destruct s as [| c s]; [done |].
  simpl. destruct (Ascii.eqb_spec c "_") as [-> | _]; [by destruct (Hs s) | done].
Qed.

Lemma lstrip_empty name : lstrip "_" name = "" ↔ ∃ k, name = repeat_char "_" k.
Proof.
  split.
  - intros H. destruct (lstrip_underscores name) as [k Hk]. exists k.
    rewrite H in Hk. rewrite Hk. clear.
    induction k as [| k IH]; [done | exact (f_equal (String "_") IH)].
  - intros [k ->]. induction k; done.
Qed.

(** *** The loop returns at the first item that matches *)

Lemma real_case_loop_return items name case :
  real_case_loop items name = Return case ↔
  ∃ pre reg post,
    items = pre ++ (reg, case) :: post ∧
    Forall (no_match (lstrip "_" name)) pre ∧
    matches reg (lstrip "_" name).
Proof.
  induction items as [| [reg0 case0] items IH]; simpl.
  - split; [done | intros ([] & ? & ? & ? & _); done].
  - destruct (fullmatch reg0 (lstrip "_" name)) eqn:Hm.
    + split.
      * intros [= ->]. exists [], reg0, items. split_and!; [done | constructor |].
        by apply fullmatch_spec.
      * intros ([| e pre] & reg & post & Heq & Hpre & Hreg); simplify_eq/=; [done |].
        apply Forall_cons in Hpre as [Hno _]. destruct Hno. by apply fullmatch_spec.
    + rewrite IH. split.
      * intros (pre & reg & post & -> & Hpre & Hreg).
        exists ((reg0, case0) :: pre), reg, post. split_and!; [done | | done].
        constructor; [| done]. unfold no_match. rewrite <- fullmatch_spec. simpl. congruence.
      * intros ([| e pre] & reg & post & Heq & Hpre & Hreg); simplify_eq/=.
        -- apply fullmatch_spec in Hreg. congruence.
        -- apply Forall_cons in Hpre as [_ Hpre]. by exists pre, reg, post.
Qed.

Lemma real_case_loop_raise items name e :
  real_case_loop items name = Raise e ↔
  Forall (no_match (lstrip "_" name)) items ∧
  e = ValueError ("Word " +:+ name +:+ " have no case").
Proof.
  induction items as [| [reg0 case0] items IH]; simpl.
  - split; [intros [= <-]; by split | intros [_ ->]; done].
  - destruct (fullmatch reg0 (lstrip "_" name)) eqn:Hm.
    + split; [done |]. intros [[Hno _]%Forall_cons _].
      destruct Hno. by apply fullmatch_spec.
    + rewrite IH, Forall_cons. unfold no_match at 2. rewrite <- fullmatch_spec. simpl.
      rewrite Hm. intuition discriminate.
Qed.

Lemma real_case_loop_first pre reg case post name :
  Forall (no_match (lstrip "_" name)) pre →
  matches reg (lstrip "_" name) →
  real_case_loop (pre ++ (reg, case) :: post) name = Return case.
Proof. intros Hpre Hreg. apply real_case_loop_return. by exists pre, reg, post. Qed.

Lemma fullmatch_void s : fullmatch Void s = false.
Proof. induction s; auto. Qed.

Lemma real_case_total_or_raise items name :
  (∃ case, real_case_loop items name = Return case) ↔
  Exists (λ e, matches e.1 (lstrip "_" name)) items.
Proof.
  split.
  - intros [case (pre & reg & post & -> & _ & Hreg)%real_case_loop_return].
    apply Exists_app. right. by constructor.
  - intros Hex. destruct (real_case_loop items name) as [case | e] eqn:Hr; [by exists case |].
    apply real_case_loop_raise in Hr as [Hall _].
    apply Exists_exists in Hex as (x & Hx & Hm).
    rewrite Forall_forall in Hall. by destruct (Hall x Hx).
Qed.

Lemma real_case_underscores k : real_case (repeat_char "_" k) = Return "_".
Proof.
  assert (Hs : lstrip "_" (repeat_char "_" k) = "") by (apply lstrip_empty; eauto).
  unfold real_case, CASES. cbn [real_case_loop]. rewrite Hs. reflexivity.
Qed.

Lemma real_case_underscore_label name :
  real_case name = Return "_" → lstrip "_" name = "".
Proof.
  unfold real_case, CASES. cbn [real_case_loop].
  repeat (match goal with
          | |- (if fullmatch ?r ?s then Return ?l else _) = Return "_" → _ =>
              destruct (fullmatch r s) eqn:?; [first [discriminate | intros _] |]
          end); [| discriminate].
  change (compile "") with Eps in *.
  match goal with H : fullmatch Eps _ = true |- _ =>
    by apply fullmatch_spec, matches_eps in H end.
Qed.

(** C1. For every identifier, [real_case] first removes all the leading
    underscores ([name] is [k] underscores followed by a [core] that does not
    start with one), then returns the style [case] exactly when the catalogue
    splits as [pre ++ (reg, case) :: post] where no pattern of [pre] matches
    the whole of [core] and [reg] does: the style of the first full match.
    The items after the first full match are not consulted: in any catalogue
    where [reg] is the first pattern to match the whole of [core], the loop
    returns the style of [reg], whatever the items that follow it. *)
Theorem real_case_first_full_match (name : string) :
  ∃ k core,
    name = repeat_char "_" k +:+ core ∧
    (∀ rest, core ≠ String "_" rest) ∧
    lstrip "_" name = core ∧
    (∀ case,
        real_case name = Return case ↔
        ∃ pre reg post,
          CASES = pre ++ (reg, case) :: post ∧
          Forall (no_match core) pre ∧
          matches reg core) ∧
    (∀ pre reg case post',
        Forall (no_match core) pre →
        matches reg core →
        real_case_loop (pre ++ (reg, case) :: post') name = Return case).
Proof.
  destruct (lstrip_underscores name) as [k Hk].
  exists k, (lstrip "_" name).
  split_and!; [done | apply lstrip_no_underscore | done | |].
  - intros case. apply real_case_loop_return.
  - intros pre reg case post' Hpre Hreg. by apply real_case_loop_first.
Qed.

(** C2, counterexample. No pattern of the catalogue matches the whole of
    [fooBar_BAZ], and [real_case] raises on it. *)
Lemma real_case_no_universal_fallback :
  ¬ (∃ e, e ∈ CASES ∧ matches e.1 (lstrip "_" "fooBar_BAZ")) ∧
  real_case "fooBar_BAZ" = Raise (ValueError "Word fooBar_BAZ have no case").
Proof.
  assert (H : real_case "fooBar_BAZ" = Raise (ValueError "Word fooBar_BAZ have no case"))
    by reflexivity.
  split; [| done].
  apply real_case_loop_raise in H as [Hall _]. rewrite Forall_forall in Hall.
  intros (e & He & Hm). by destruct (Hall e He).
Qed.

(** C2, amended. The last pattern is a fallback for the names made of
    underscores only: on every such name [real_case] returns ["_"].  On any
    name, [real_case] returns a style if and only if some pattern of the
    catalogue matches the whole of the stripped name. *)
Theorem real_case_returns_iff_some_match :
  (∀ k, real_case (repeat_char "_" k) = Return "_") ∧
  (∀ name,
      (∃ case, real_case name = Return case) ↔
      Exists (λ e, matches e.1 (lstrip "_" name)) CASES).
Proof. split; [apply real_case_underscores | intros; apply real_case_total_or_raise]. Qed.

(** C3. [real_case] raises exactly when no pattern of the catalogue matches
    the whole of the stripped name, and the error is then the [ValueError]
    whose message holds the name as it was given.  The last item of the
    catalogue has the style ["_"] and its pattern matches the empty string
    only, so ["_"] is the style of the names made of underscores only (the
    empty name among them) and of no other name; and there are names on which
    [real_case] raises. *)
Theorem real_case_raises_iff_no_match :
  (∀ name e,
      real_case name = Raise e ↔
      Forall (no_match (lstrip "_" name)) CASES ∧
      e = ValueError ("Word " +:+ name +:+ " have no case")) ∧
  (∃ reg, last CASES = Some (reg, "_") ∧ ∀ s, matches reg s ↔ s = "") ∧
  (∀ name, real_case name = Return "_" ↔ ∃ k, name = repeat_char "_" k) ∧
  (∃ name e, real_case name = Raise e).
Proof.
  split_and!.
  - intros. apply real_case_loop_raise.
  - exists Eps. split; [reflexivity |]. intros s. split; [apply matches_eps |].
    intros ->. constructor.
  - intros name. split.
    + intros H. by apply lstrip_empty, real_case_underscore_label.
    + intros [k ->]. apply real_case_underscores.
  - by exists "fooBar_BAZ", (ValueError "Word fooBar_BAZ have no case").
Qed.

(** *** The order of the catalogue *)

Lemma CASES_label_index i case :
  CASES.*2 !! i = Some case →
  (case = "UPPER_CASE" → i = 4) ∧ (case = "Py_CASES" → i = 8).
Proof.
  rewrite CASES_labels. intros H.
  do 12 (destruct i as [| i]; [injection H as <-; split; intros; done |]).
  done.
Qed.

(** Every name the pattern of [Py_CASES] matches starts with [Py], and the
    pattern of [UPPER_CASE] matches no name with a small letter: no name is
    matched by both, and the order between the two does not change the style
    of any name. *)
Lemma Py_CASES_UPPER_CASE_disjoint reg_upper reg_py s :
  CASES !! 4 = Some (reg_upper, "UPPER_CASE") →
  CASES !! 8 = Some (reg_py, "Py_CASES") →
  matches reg_py s → ¬ matches reg_upper s.
Proof.
  intros [= <-] [= <-] Hpy Hup.
  apply matches_cat in Hpy as (s1 & s' & -> & H1 & Hpy).
  apply matches_cat in Hpy as (s2 & s'' & -> & H2 & _).
  inversion H1; subst. inversion H2; subst.
  apply fullmatch_spec in Hup.
  change (fullmatch Void s'' = true) in Hup.
  by rewrite fullmatch_void in Hup.
Qed.

(** C4, counterexample. No item of style [Py_CASES] comes before an item of
    style [UPPER_CASE] in the catalogue. *)
Lemma Py_CASES_not_before_UPPER_CASE :
  ¬ (∃ i j, i < j ∧ CASES.*2 !! i = Some "Py_CASES" ∧ CASES.*2 !! j = Some "UPPER_CASE").
Proof.
  intros (i & j & Hlt & Hi & Hj).
  apply CASES_label_index in Hi as [_ Hi], Hj as [Hj _].
  specialize (Hi eq_refl). specialize (Hj eq_refl). lia.
Qed.

(** C4, amended. In the order of the catalogue the item of style
    [UPPER_CASE] (the fifth) comes before the item of style [Py_CASES] (the
    ninth), each style names one item only, and the item of the empty pattern,
    of style ["_"], is the last one. *)
Theorem UPPER_CASE_before_Py_CASES :
  (∃ i j, i < j ∧ CASES.*2 !! i = Some "UPPER_CASE" ∧ CASES.*2 !! j = Some "Py_CASES") ∧
  NoDup CASES.*2 ∧
  last CASES = Some (compile "", "_").
Proof.
  split_and!.
  - exists 4, 8. split_and!; [lia | done | done].
  - rewrite CASES_labels. by apply (bool_decide_unpack _).
  - reflexivity.
Qed.

(** C5. The name of every style of the catalogue is of that style. *)
Theorem real_case_of_style_names :
  CASES.*2 =
    [ "MixedCase"; "snake_case"; "camelCase"; "Mixed_snake_case"; "UPPER_CASE";
      "Mixed_Snake_Case"; "snakeCamel_case"; "changing_CASE"; "Py_CASES";
      "LOWFINAL_CAse"; "VERSIONv1.1_CASE"; "_" ] ∧
  Forall (λ case, real_case case = Return case) CASES.*2.
Proof.
  split; [reflexivity |]. rewrite CASES_labels. repeat constructor.
Qed.

(** C6. The styles of the longer names of the tests: digits are allowed in
    [snake_case], and the leading underscores are removed before matching. *)
Theorem real_case_longer_names :
  real_case "snake_case_two_more" = Return "snake_case" ∧
  real_case "UPPER_CASE_TWO_MORE" = Return "UPPER_CASE" ∧
  real_case "camelCaseTwoMore" = Return "camelCase" ∧
  real_case "MixedCaseTwoMore" = Return "MixedCase" ∧
  real_case "snake_42case" = Return "snake_case" ∧
  real_case "__hadoken" = Return "snake_case".
Proof. split_and!; reflexivity. Qed.

(** C7. The styles of the names that mix underscores with capitals: the
    order of the catalogue decides. *)
Theorem real_case_mixed_names :
  real_case "barry_as_FLUFL" = Return "changing_CASE" ∧
  real_case "this_isAtest" = Return "snakeCamel_case" ∧
  real_case "this_isAnother_one" = Return "snakeCamel_case".
Proof. split_and!; reflexivity. Qed.

(** ** Properties of [expected_case] *)

Lemma expected_case_loop_return items obj lib_name case :
  expected_case_loop items obj lib_name = Return case ↔
  ∃ pre is_type post,
    items = pre ++ (is_type, case) :: post ∧
    Forall (not_type obj) pre ∧
    is_type obj = true.
Proof.
  induction items as [| [p0 case0] items IH]; simpl.
  - split; [done | intros ([] & ? & ? & ? & _); done].
  - destruct (p0 obj) eqn:Hp.
    + split.
      * intros [= ->]. exists [], p0, items. by split_and!.
      * intros ([| e pre] & p & post & Heq & Hpre & Hp'); simplify_eq/=; [done |].
        apply Forall_cons in Hpre as [Hno _]. unfold not_type in Hno. simpl in Hno.
        congruence.
    + rewrite IH. split.
      * intros (pre & p & post & -> & Hpre & Hp').
        exists ((p0, case0) :: pre), p, post. split_and!; [done | | done].
        by constructor.
      * intros ([| e pre] & p & post & Heq & Hpre & Hp'); simplify_eq/=; [congruence |].
        apply Forall_cons in Hpre as [_ Hpre]. by exists pre, p, post.
Qed.

Lemma expected_case_loop_raise items obj lib_name e :
  expected_case_loop items obj lib_name = Raise e ↔
  Forall (not_type obj) items ∧ e = not_handled obj lib_name.
Proof.
  induction items as [| [p0 case0] items IH]; simpl.
  - split; [intros [= <-]; by split | intros [_ ->]; done].
  - rewrite Forall_cons. unfold not_type at 1. simpl.
    destruct (p0 obj); [| rewrite IH]; intuition discriminate.
Qed.

Lemma isclass_type_ obj : isclass (type_ obj) = true.
Proof.
  unfold isclass, isinstance, type_, class_of at 1. simpl. rewrite orb_false_r.
  apply bool_decide_eq_true. unfold metaclass.
  destruct (cls_meta (class_of obj)) as [| m ms]; unfold mro; simpl; set_solver.
Qed.

Lemma expected_case_returns obj : ∃ case, expected_case obj "" = Return case.
Proof.
  unfold expected_case, type_to_case. cbn [expected_case_loop].
  rewrite isclass_type_. repeat case_match; eauto.
Qed.

(** The styles expected for the sample objects.  A built-in function is not
    an instance of [types.FunctionType]: it falls to the last predicate. *)
Example expected_case_samples :
  (λ obj, expected_case obj "") <$>
    [an_int; a_bool; a_str; a_function; a_module; a_builtin_function; a_logger;
     a_class; an_abstract_class; type_ an_int] =
  Return <$>
    ["UPPER_CASE"; "UPPER_CASE"; "UPPER_CASE"; "snake_case"; "snake_case"; "UPPER_CASE";
     "UPPER_CASE"; "MixedCase"; "MixedCase"; "MixedCase"].
Proof. reflexivity. Qed.

Lemma isinstance_spec obj classes :
  isinstance obj classes = true ↔ ∃ c, c ∈ classes ∧ instance_of obj c.
Proof.
  unfold isinstance, instance_of. rewrite existsb_exists.
  setoid_rewrite bool_decide_eq_true. by setoid_rewrite list_elem_of_In.
Qed.

Lemma isinstance_one obj c : isinstance obj [c] = true ↔ instance_of obj c.
Proof.
  rewrite isinstance_spec. split.
  - by intros (c' & ->%list_elem_of_singleton & ?).
  - intros H. exists c. split; [apply list_elem_of_here | done].
Qed.

Lemma isinstance_not obj classes :
  isinstance obj classes = false ↔ ∀ c, c ∈ classes → ¬ instance_of obj c.
Proof.
  rewrite <- not_true_iff_false, isinstance_spec. split.
  - intros Hno c Hc Hin. apply Hno. by exists c.
  - intros Hno (c & Hc & Hin). by apply (Hno c).
Qed.

Lemma isinstance_not_one obj c : isinstance obj [c] = false ↔ ¬ instance_of obj c.
Proof.
  rewrite isinstance_not. split.
  - intros H. apply H, list_elem_of_here.
  - by intros H c' ->%list_elem_of_singleton.
Qed.

(** C8, counterexample. The built-in function [len] is callable and is not
    a class; the style expected for it is [UPPER_CASE], not [snake_case]. *)
Lemma expected_case_callable_not_snake_case :
  callable a_builtin_function = true ∧
  isclass a_builtin_function = false ∧
  expected_case a_builtin_function "" = Return "UPPER_CASE" ∧
  expected_case a_builtin_function "" ≠ Return "snake_case".
Proof. split_and!; [reflexivity | reflexivity | reflexivity | discriminate]. Qed.

(** C8, amended. [expected_case] tries its predicates in the order of the
    dict and returns the style of the first one that holds: [MixedCase] for
    an instance of [type] (a class); [snake_case] for an instance of the
    type of the functions defined in Python, which the other callables are
    not; [snake_case] for an instance of the type of modules; [UPPER_CASE]
    for an instance of one of the built-in types of constants;
    [UPPER_CASE] for any other object, whose type is a class.  When no
    predicate of the dict holds the loop raises the [ValueError] whose
    message holds the object, its type and the name of the library. *)
Theorem expected_case_first_predicate (obj : object) (lib_name : string) :
  (instance_of obj "type" → expected_case obj lib_name = Return "MixedCase") ∧
  (¬ instance_of obj "type" → instance_of obj "function" →
     expected_case obj lib_name = Return "snake_case") ∧
  (¬ instance_of obj "type" → ¬ instance_of obj "function" → instance_of obj "module" →
     expected_case obj lib_name = Return "snake_case") ∧
  (¬ instance_of obj "type" → ¬ instance_of obj "function" → ¬ instance_of obj "module" →
     (∃ c, c ∈ ["str"; "bytes"; "int"; "float"; "list"; "tuple"; "set"; "frozenset"; "dict"]
           ∧ instance_of obj c) →
     expected_case obj lib_name = Return "UPPER_CASE") ∧
  (¬ instance_of obj "type" → ¬ instance_of obj "function" → ¬ instance_of obj "module" →
     (∀ c, c ∈ ["str"; "bytes"; "int"; "float"; "list"; "tuple"; "set"; "frozenset"; "dict"]
           → ¬ instance_of obj c) →
     instance_of (type_ obj) "type" ∧
     expected_case obj lib_name = Return "UPPER_CASE") ∧
  (∀ case,
      expected_case obj lib_name = Return case ↔
      ∃ pre is_type post,
        type_to_case = pre ++ (is_type, case) :: post ∧
        Forall (not_type obj) pre ∧
        is_type obj = true) ∧
  (∀ items,
      Forall (not_type obj) items →
      expected_case_loop items obj lib_name =
      Raise (ValueError ("Object '" +:+ str obj +:+ "' of type " +:+ str (type_ obj)
                         +:+ " found in lib '" +:+ lib_name
                         +:+ "' is not handled by expected_case function"))).
Proof.
  unfold expected_case at 1 2 3 4 5. unfold type_to_case at 1 2 3 4 5.
  cbn [expected_case_loop]. unfold isclass, isfunction, ismodule.
  split_and!.
  - intros ->%isinstance_one. done.
  - intros ->%isinstance_not_one ->%isinstance_one. done.
  - intros ->%isinstance_not_one ->%isinstance_not_one ->%isinstance_one. done.
  - intros ->%isinstance_not_one ->%isinstance_not_one ->%isinstance_not_one
      ->%isinstance_spec. done.
  - intros ->%isinstance_not_one ->%isinstance_not_one ->%isinstance_not_one
      ->%isinstance_not.
    pose proof (isclass_type_ obj) as Hlast. unfold isclass in Hlast.
    rewrite Hlast. split; [by apply isinstance_one | done].
  - intros case. apply expected_case_loop_return.
  - intros items Hall. by apply expected_case_loop_raise.
Qed.


(** ** Properties of the two tables *)

Section Tables.
Context {V : Type}.
Implicit Types d : gmap string (gmap string (gmap string V)).

Lemma lookup3_lookup2 d lib e r : lookup3 d lib e r = lookup2 d lib e !! r.
Proof.
  unfold lookup3, lookup2, getitem.
  destruct (d !! lib) as [d1 |]; simpl; [| done].
  by destruct (d1 !! e).
Qed.

Lemma lookup2_at_key d lib e (f : gmap string V → gmap string V) lib' e' :
  lookup2 (at_key ∅ lib (at_key ∅ e f) d) lib' e' =
  if decide (lib = lib' ∧ e = e') then f (lookup2 d lib e) else lookup2 d lib' e'.
Proof.
  unfold lookup2, at_key, getitem.
  destruct (decide (lib = lib')) as [<- | Hlib].
  - rewrite lookup_insert_eq. simpl.
    destruct (decide (e = e')) as [<- | He].
    + rewrite lookup_insert_eq. rewrite decide_True; done.
    + rewrite lookup_insert_ne by done. rewrite decide_False; [done | by intros [_ ?]].
  - rewrite lookup_insert_ne by done. rewrite decide_False; [done | by intros [? _]].
Qed.

Lemma lookup2_at_key_id d lib lib' e' :
  lookup2 (at_key ∅ lib id d) lib' e' = lookup2 d lib' e'.
Proof.
  unfold lookup2, at_key, getitem.
  destruct (decide (lib = lib')) as [<- | Hlib].
  - by rewrite lookup_insert_eq.
  - by rewrite lookup_insert_ne.
Qed.

Lemma lookup2_at_key_id2 d lib e lib' e' :
  lookup2 (at_key ∅ lib (at_key ∅ e id) d) lib' e' = lookup2 d lib' e'.
Proof. rewrite lookup2_at_key. case_decide as H; [by destruct H as [<- <-] | done]. Qed.

End Tables.

Lemma sum_values_at_key r (d : gmap string nat) :
  sum_values (at_key 0 r S d) = S (sum_values d).
Proof.
  unfold at_key, getitem, sum_values.
  destruct (d !! r) as [n |] eqn:Hr; simpl.
  - rewrite <- insert_delete_eq.
    rewrite map_fold_insert_L; [| intros; lia | apply lookup_delete_eq].
    rewrite (map_fold_delete_L _ _ r n d); [lia | intros; lia | done].
  - rewrite map_fold_insert_L; [lia | intros; lia | done].
Qed.

(** *** The effect of one turn of the loop *)

Lemma record_return lib obj name t t' :
  record lib obj name t = (Return tt, t') →
  ∃ e r,
    expected_case obj "" = Return e ∧ real_case name = Return r ∧
    (∀ lib' e',
        lookup2 (acc t') lib' e' =
        if decide (lib = lib' ∧ e = e')
        then at_key ∅ r (λ s, {[ (type_ obj, name) ]} ∪ s) (lookup2 (acc t) lib e)
        else lookup2 (acc t) lib' e') ∧
    (∀ lib' e',
        lookup2 (counter t') lib' e' =
        if decide (lib = lib' ∧ e = e')
        then at_key 0 r S (lookup2 (counter t) lib e)
        else lookup2 (counter t) lib' e').
Proof.
  unfold record, mbind, M_bind, bind, call, on_acc, on_counter. simpl.
  destruct (expected_case obj "") as [e | ?]; [| done].
  destruct (real_case name) as [r | ?]; [| done].
  intros [= <-]. exists e, r. simpl. split_and!; [done | done | |].
  - intros lib' e'. by rewrite lookup2_at_key, !lookup2_at_key_id2, !lookup2_at_key_id.
  - intros lib' e'. by rewrite lookup2_at_key, !lookup2_at_key_id2, !lookup2_at_key_id.
Qed.

Lemma record_returns lib obj name t r :
  real_case name = Return r → ∃ t', record lib obj name t = (Return tt, t').
Proof.
  intros Hr. destruct (expected_case_returns obj) as [e He].
  unfold record, mbind, M_bind, bind, call, on_acc, on_counter. simpl.
  rewrite He, Hr. eauto.
Qed.

Lemma consistent_empty : consistent [] empty_tables.
Proof.
  intros lib e. split; [done |]. intros r.
  unfold lookup2, getitem. simpl. by rewrite !lookup_empty.
Qed.

Lemma getitem_count_of (d : gmap string nat) r l :
  d !! r = count_of l → getitem 0 r d = length l.
Proof. unfold getitem. intros ->. by destruct l. Qed.

Lemma getitem_set_of (d : gmap string (gset (object * string))) r l :
  d !! r = set_of l → getitem ∅ r d = list_to_set l.
Proof. unfold getitem. intros ->. by destruct l. Qed.

Lemma count_of_snoc l x : count_of (l ++ [x]) = Some (S (length l)).
Proof. destruct l; simpl; [done |]. rewrite length_app. simpl. do 2 f_equal. lia. Qed.

Lemma set_of_snoc l x : set_of (l ++ [x]) = Some ({[ x ]} ∪ list_to_set l).
Proof.
  assert (list_to_set (l ++ [x]) =@{gset _} {[ x ]} ∪ list_to_set l) as <-.
  { rewrite list_to_set_app_L. simpl. rewrite (right_id_L ∅ (∪)). apply (comm_L (∪)). }
  by destruct l.
Qed.

Lemma pairs_snoc obs lib e r o :
  pairs (obs ++ [o]) lib e r =
  pairs obs lib e r ++ (if decide (on_path lib e r o) then [(type_ o.1.2, o.2)] else []).
Proof.
  unfold pairs. rewrite filter_app, fmap_app, filter_cons, filter_nil.
  by case_decide.
Qed.

Lemma expected_in_snoc obs lib e o :
  length (filter (expected_in lib e) (obs ++ [o])) =
  length (filter (expected_in lib e) obs) + (if decide (expected_in lib e o) then 1 else 0).
Proof.
  rewrite filter_app, length_app, filter_cons, filter_nil. by case_decide.
Qed.

Lemma consistent_record obs lib obj name t t' :
  consistent obs t →
  record lib obj name t = (Return tt, t') →
  consistent (obs ++ [(lib, obj, name)]) t'.
Proof.
  intros Hinv (e & r & He & Hr & Hacc & Hcounter)%record_return lib' e'.
  destruct (Hinv lib' e') as [Hsum Hpath].
  rewrite Hacc, Hcounter, expected_in_snoc. setoid_rewrite pairs_snoc.
  case_decide as Hle.
  - destruct Hle as [<- <-]. rewrite decide_True by done. split.
    + rewrite sum_values_at_key. lia.
    + intros r'. destruct (Hpath r') as [Hc Hs]. unfold at_key.
      destruct (decide (r = r')) as [<- | Hne].
      * rewrite !lookup_insert_eq, decide_True by done.
        rewrite count_of_snoc, set_of_snoc.
        by rewrite (getitem_count_of _ _ _ Hc), (getitem_set_of _ _ _ Hs).
      * rewrite !lookup_insert_ne by done.
        rewrite decide_False; [by rewrite app_nil_r |].
        intros (_ & _ & Hr'). simpl in Hr'. congruence.
  - rewrite decide_False; last first.
    { intros [? He']. simpl in *. destruct Hle. split; congruence. }
    split; [lia |]. intros r'.
    rewrite decide_False; [by rewrite app_nil_r |].
    intros (? & He' & _). simpl in *. destruct Hle. split; congruence.
Qed.

Lemma consistent_for_objects lib objects : ∀ obs t t',
  consistent obs t →
  for_objects lib objects t = (Return tt, t') →
  consistent (obs ++ ((λ o, (lib, o.1, o.2)) <$> objects)) t'.
Proof.
  induction objects as [| [obj name] objects IH]; intros obs t t' Hinv Hrun; simpl in *.
  - injection Hrun as <-. by rewrite app_nil_r.
  - unfold mbind, M_bind, bind in Hrun.
    destruct (record lib obj name t) as [[[] | ?] t1] eqn:Hrec; [| done].
    rewrite cons_middle, app_assoc. eapply IH; [| done].
    by eapply consistent_record.
Qed.

Lemma observations_cons import_module lib libs :
  observations import_module (lib :: libs) =
  ((λ o, (lib, o.1, o.2)) <$> objects_in_lib import_module lib)
    ++ observations import_module libs.
Proof. reflexivity. Qed.

Lemma consistent_for_libs import_module libs : ∀ obs t t',
  consistent obs t →
  for_libs import_module libs t = (Return tt, t') →
  consistent (obs ++ observations import_module libs) t'.
Proof.
  induction libs as [| lib libs IH]; intros obs t t' Hinv Hrun.
  - injection Hrun as <-. by rewrite app_nil_r.
  - cbn [for_libs] in Hrun. unfold mbind, M_bind, bind in Hrun.
    destruct (for_objects lib _ t) as [[[] | ?] t1] eqn:Hobjs; [| done].
    rewrite observations_cons, app_assoc. eapply IH; [| done].
    by eapply consistent_for_objects.
Qed.

Lemma size_list_to_set_le (l : list (object * string)) :
  (size (list_to_set l : gset (object * string)) ≤ length l)%nat.
Proof.
  induction l as [| x l IH]; [done |].
  rewrite list_to_set_cons. cbn [length].
  - rewrite size_union_alt, size_singleton.
    assert (size (list_to_set l ∖ {[x]} : gset (object * string))
            ≤ size (list_to_set l : gset (object * string)))%nat
      by (apply subseteq_size, subseteq_difference_l; done).
    lia.
Qed.

Lemma size_list_to_set_NoDup (l : list (object * string)) :
  size (list_to_set l : gset (object * string)) = length l ↔ NoDup l.
Proof.
  split; [| apply size_list_to_set].
  induction l as [| x l IH]; [constructor |].
  rewrite list_to_set_cons. cbn [length]. intros Hsize.
  pose proof (size_list_to_set_le l) as Hle.
  destruct (decide (x ∈ l)) as [Hin | Hin].
  - assert ({[x]} ∪ list_to_set l = (list_to_set l : gset (object * string))) as Heq
      by (by apply subseteq_union_1_L, singleton_subseteq_l, elem_of_list_to_set).
    rewrite Heq in Hsize. lia.
  - constructor; [done |]. apply IH.
    rewrite size_union, size_singleton in Hsize; [lia |].
    by apply disjoint_singleton_l; rewrite elem_of_list_to_set.
Qed.

(** The run goes to its end when every name it meets has a style. *)
Lemma for_objects_returns lib objects : ∀ t,
  Forall (λ o, ∃ r, real_case o.2 = Return r) objects →
  ∃ t', for_objects lib objects t = (Return tt, t').
Proof.
  induction objects as [| [obj name] objects IH]; intros t Hall; [by eexists |].
  apply Forall_cons in Hall as [[r Hr] Hall].
  destruct (record_returns lib obj name t r Hr) as [t1 Hrec].
  destruct (IH t1 Hall) as [t' Hrun]. exists t'.
  cbn [for_objects]. unfold mbind, M_bind, bind. by rewrite Hrec.
Qed.

Lemma main_returns import_module libs_names :
  Forall (λ o, ∃ r, real_case o.2 = Return r) (observations import_module libs_names) →
  ∃ t, main import_module libs_names = (Return tt, t).
Proof.
  unfold main. generalize empty_tables.
  induction libs_names as [| lib libs IH]; intros t Hall; [by eexists |].
  rewrite observations_cons in Hall. apply Forall_app in Hall as [Hlib Hall].
  destruct (for_objects_returns lib (objects_in_lib import_module lib) t) as [t1 Hobjs].
  { rewrite Forall_fmap in Hlib. eapply Forall_impl; [exact Hlib | done]. }
  destruct (IH t1 Hall) as [t' Hrun]. exists t'.
  cbn [for_libs]. unfold mbind, M_bind, bind. by rewrite Hobjs.
Qed.

(** C9. After a run of the main loop over any libraries: for every library
    [lib] and expected style [e], the counts under [counter[lib][e]] add up
    to the number of observations of [lib] whose expected style is [e]; the
    two tables have the same paths [lib], [e], [r]; and under each such path
    the set has at most as many pairs as the count, and as many exactly when
    no two observations filed under the path gave the same pair. *)
Theorem tables_consistent import_module libs_names t :
  main import_module libs_names = (Return tt, t) →
  (∀ lib e,
      sum_values (lookup2 (counter t) lib e) =
      length (filter (expected_in lib e) (observations import_module libs_names))) ∧
  (∀ lib e r,
      is_Some (lookup3 (acc t) lib e r) ↔ is_Some (lookup3 (counter t) lib e r)) ∧
  (∀ lib e r s n,
      lookup3 (acc t) lib e r = Some s →
      lookup3 (counter t) lib e r = Some n →
      n = length (filter (on_path lib e r) (observations import_module libs_names)) ∧
      (size s ≤ n)%nat ∧
      (size s = n ↔ NoDup (pairs (observations import_module libs_names) lib e r))).
Proof.
  intros Hrun.
  pose proof (consistent_for_libs _ _ _ _ _ consistent_empty Hrun) as Hinv.
  rewrite app_nil_l in Hinv. split_and!.
  - intros lib e. apply Hinv.
  - intros lib e r. destruct (Hinv lib e) as [_ Hpath]. destruct (Hpath r) as [Hc Hs].
    rewrite !lookup3_lookup2, Hc, Hs.
    destruct (pairs _ lib e r); simpl; split; intros [? ?]; by eauto.
  - intros lib e r s n. destruct (Hinv lib e) as [_ Hpath]. destruct (Hpath r) as [Hc Hs].
    rewrite !lookup3_lookup2, Hc, Hs.
    assert (Hlen : length (pairs (observations import_module libs_names) lib e r) =
                   length (filter (on_path lib e r) (observations import_module libs_names)))
      by apply length_fmap.
    rewrite <- Hlen.
    destruct (pairs _ lib e r) as [| x l] eqn:Hl; [done |].
    intros [= <-] [= <-]. split_and!; [done | apply (size_list_to_set_le (x :: l)) |].
    apply (size_list_to_set_NoDup (x :: l)).
Qed.

(** C9, witness.  The sample run goes to its end; [logging] is read twice,
    so that each pair is met twice. *)
Lemma tables_consistent_sample :
  main sample_import sample_libs = (Return tt, sample_tables) ∧
  (∀ lib e,
      sum_values (lookup2 (counter sample_tables) lib e) =
      length (filter (expected_in lib e) (observations sample_import sample_libs))) ∧
  (∀ lib e r,
      is_Some (lookup3 (acc sample_tables) lib e r) ↔
      is_Some (lookup3 (counter sample_tables) lib e r)) ∧
  (∀ lib e r s n,
      lookup3 (acc sample_tables) lib e r = Some s →
      lookup3 (counter sample_tables) lib e r = Some n →
      n = length (filter (on_path lib e r) (observations sample_import sample_libs)) ∧
      (size s ≤ n)%nat ∧
      (size s = n ↔ NoDup (pairs (observations sample_import sample_libs) lib e r))).
Proof.
  split; [vm_compute; reflexivity |].
  apply (tables_consistent sample_import sample_libs sample_tables).
  vm_compute; reflexivity.
Defined.

Example sample_duplicates :
  lookup3 (counter sample_tables) "logging" "snake_case" "snake_case" = Some 2 ∧
  size <$> lookup3 (acc sample_tables) "logging" "snake_case" "snake_case" = Some 1 ∧
  lookup3 (counter sample_tables) "logging" "UPPER_CASE" "camelCase" = Some 2.
Proof. split_and!; vm_compute; reflexivity. Qed.

(** A name of no style stops the run. *)
Example sample_abort :
  (main sample_import ["logging"; "odd"; "logging"]).1 =
  Raise (ValueError "Word fooBar_BAZ have no case").
Proof. vm_compute; reflexivity. Qed.

(** ** More on [real_case] *)

Lemma lstrip_repeat_char_app k name :
  lstrip "_" (repeat_char "_" k +:+ name) = lstrip "_" name.
Proof. induction k as [| k IH]; [done | exact IH]. Qed.

Lemma real_case_lstrip name name' case :
  lstrip "_" name = lstrip "_" name' →
  real_case name = Return case → real_case name' = Return case.
Proof.
  unfold real_case. rewrite !real_case_loop_return. intros ->. done.
Qed.

(** X1. Underscores put before a name do not change its style. *)
Theorem real_case_leading_underscores (k : nat) (name case : string) :
  real_case (repeat_char "_" k +:+ name) = Return case ↔ real_case name = Return case.
Proof.
  split; apply real_case_lstrip; by rewrite lstrip_repeat_char_app.
Qed.

(** X2. [real_case] returns the name of a style of the catalogue, whatever
    the name: it either raises or gives one of the twelve styles. *)
Theorem real_case_in_catalogue (name : string) :
  match real_case name with
  | Return case =>
      case ∈ [ "MixedCase"; "snake_case"; "camelCase"; "Mixed_snake_case"; "UPPER_CASE";
               "Mixed_Snake_Case"; "snakeCamel_case"; "changing_CASE"; "Py_CASES";
               "LOWFINAL_CAse"; "VERSIONv1.1_CASE"; "_" ]
  | Raise e => e = ValueError ("Word " +:+ name +:+ " have no case")
  end.
Proof.
  destruct (real_case name) as [case | e] eqn:Hr.
  - apply real_case_loop_return in Hr as (pre & reg & post & Heq & _).
    rewrite <- CASES_labels, Heq, fmap_app, fmap_cons. simpl.
    apply elem_of_app. right. apply elem_of_cons. by left.
  - by apply real_case_loop_raise in Hr as [_ ->].
Qed.

(** *** The item that wins *)

Lemma CASES_labels_distinct : NoDup CASES.*2.
Proof. rewrite CASES_labels. by apply (bool_decide_unpack _). Qed.

Lemma real_case_at i reg case name :
  CASES !! i = Some (reg, case) →
  real_case name = Return case ↔
  fullmatch reg (lstrip "_" name) = true ∧
  Forall (λ e, fullmatch e.1 (lstrip "_" name) = false) (take i CASES).
Proof.
  intros Hi. unfold real_case. rewrite real_case_loop_return. split.
  - intros (pre & reg0 & post & Heq & Hpre & Hreg).
    assert (Hlen : length pre = i).
    { eapply (NoDup_lookup _ _ _ case CASES_labels_distinct).
      - rewrite Heq, fmap_app, fmap_cons. simpl.
        rewrite lookup_app_r by (by rewrite length_fmap).
        by rewrite length_fmap, Nat.sub_diag.
      - by rewrite list_lookup_fmap, Hi. }
    subst i. rewrite Heq in Hi |- *.
    rewrite list_lookup_middle in Hi by done. injection Hi as <-.
    rewrite take_app_length. split; [by apply fullmatch_spec |].
    eapply Forall_impl; [exact Hpre |]. intros e He.
    destruct (fullmatch e.1 (lstrip "_" name)) eqn:Hm; [| done].
    destruct He. by apply fullmatch_spec.
  - intros [Hreg Hpre]. exists (take i CASES), reg, (drop (S i) CASES). split_and!.
    + by rewrite take_drop_middle.
    + eapply Forall_impl; [exact Hpre |]. intros e He Hm.
      apply fullmatch_spec in Hm. congruence.
    + by apply fullmatch_spec.
Qed.

(** *** The languages of the first three patterns *)

Ltac each_char c := destruct c as [[] [] [] [] [] [] [] []]; try reflexivity; try done.

Lemma deriv_word_tail c : deriv c word_tail = if is_alnum c then word_tail else Void.
Proof. each_char c. Qed.

Lemma fullmatch_word_tail s : fullmatch word_tail s = all_chars is_alnum s.
Proof.
  induction s as [| c s IH]; [reflexivity |]. cbn [fullmatch all_chars]. rewrite deriv_word_tail.
  destruct (is_alnum c); [exact IH | apply fullmatch_void].
Qed.

Lemma deriv_MixedCase c :
  deriv c (compile "[A-Z][a-z0-9]*([A-Z][a-z0-9]*)*") = if is_capital c then word_tail else Void.
Proof. each_char c. Qed.

Lemma deriv_camelCase c :
  deriv c (compile "[a-z0-9]+([A-Z][a-z0-9]*)*") = if is_small c then word_tail else Void.
Proof. each_char c. Qed.

Lemma deriv_snake_case c :
  deriv c (compile "[a-z_0-9]+") =
  if is_snake c then Star (Cls [Range "a" "z"; Single "_"; Range "0" "9"]) else Void.
Proof. each_char c. Qed.

Lemma deriv_snake_tail c :
  deriv c (Star (Cls [Range "a" "z"; Single "_"; Range "0" "9"])) =
  if is_snake c then Star (Cls [Range "a" "z"; Single "_"; Range "0" "9"]) else Void.
Proof. each_char c. Qed.

Lemma fullmatch_snake_tail s :
  fullmatch (Star (Cls [Range "a" "z"; Single "_"; Range "0" "9"])) s = all_chars is_snake s.
Proof.
  induction s as [| c s IH]; [reflexivity |]. cbn [fullmatch all_chars]. rewrite deriv_snake_tail.
  destruct (is_snake c); [exact IH | apply fullmatch_void].
Qed.

Lemma fullmatch_MixedCase s :
  fullmatch (compile "[A-Z][a-z0-9]*([A-Z][a-z0-9]*)*") s =
  match s with
  | EmptyString => false
  | String c rest => is_capital c && all_chars is_alnum rest
  end.
Proof.
  destruct s as [| c rest]; [reflexivity |]. cbn [fullmatch all_chars]. rewrite deriv_MixedCase.
  destruct (is_capital c); [apply fullmatch_word_tail | apply fullmatch_void].
Qed.

Lemma fullmatch_camelCase s :
  fullmatch (compile "[a-z0-9]+([A-Z][a-z0-9]*)*") s =
  match s with
  | EmptyString => false
  | String c rest => is_small c && all_chars is_alnum rest
  end.
Proof.
  destruct s as [| c rest]; [reflexivity |]. cbn [fullmatch all_chars]. rewrite deriv_camelCase.
  destruct (is_small c); [apply fullmatch_word_tail | apply fullmatch_void].
Qed.

Lemma fullmatch_snake_case s :
  fullmatch (compile "[a-z_0-9]+") s =
  match s with
  | EmptyString => false
  | String c rest => all_chars is_snake s
  end.
Proof.
  destruct s as [| c rest]; [reflexivity |]. cbn [fullmatch all_chars]. rewrite deriv_snake_case.
  destruct (is_snake c); [apply fullmatch_snake_tail | apply fullmatch_void].
Qed.

Lemma is_snake_not_capital c : is_snake c = true → is_capital c = false.
Proof. each_char c. Qed.

Lemma is_small_not_capital c : is_small c = true → is_capital c = false.
Proof. each_char c. Qed.

Lemma is_alnum_snake_capital c : is_alnum c = true → is_snake c = negb (is_capital c).
Proof. each_char c. Qed.

Lemma is_small_alnum c : is_small c = true → is_alnum c = true.
Proof. each_char c. Qed.

Lemma all_chars_snake_capital s :
  all_chars is_alnum s = true → all_chars is_snake s = negb (some_char is_capital s).
Proof.
  induction s as [| c s IH]; [done |]. simpl.
  intros [Hc Hs]%andb_prop. rewrite (is_alnum_snake_capital c Hc), (IH Hs).
  by destruct (is_capital c).
Qed.

(** X4. The style is [MixedCase] exactly when the name, its leading
    underscores removed, starts with a capital and is made of letters and
    digits only; a word of capitals such as [HTTP] is of that style. *)
Theorem real_case_MixedCase (name : string) :
  real_case name = Return "MixedCase" ↔
  ∃ c rest,
    lstrip "_" name = String c rest ∧
    is_capital c = true ∧ all_chars is_alnum rest = true.
Proof.
  rewrite (real_case_at 0 _ _ name eq_refl), fullmatch_MixedCase.
  unfold CASES. cbn [take]. split.
  - intros [Hm _]. destruct (lstrip "_" name) as [| c rest]; [done |].
    apply andb_prop in Hm as [? ?]. by exists c, rest.
  - intros (c & rest & -> & Hc & Hrest). split; [| constructor].
    by rewrite Hc, Hrest.
Qed.

(** X3. The style is [snake_case] exactly when the name, its leading
    underscores removed, is not empty and is made of small letters, digits
    and underscores only. *)
Theorem real_case_snake_case (name : string) :
  real_case name = Return "snake_case" ↔
  lstrip "_" name ≠ "" ∧ all_chars is_snake (lstrip "_" name) = true.
Proof.
  rewrite (real_case_at 1 _ _ name eq_refl), fullmatch_snake_case.
  unfold CASES. cbn [take]. rewrite Forall_singleton. cbn [fst].
  rewrite fullmatch_MixedCase.
  destruct (lstrip "_" name) as [| c rest]; [split; intros [? ?]; done |].
  split.
  - intros [Hs _]. done.
  - intros [_ Hs]. split; [done |].
    cbn [all_chars] in Hs. apply andb_prop in Hs as [Hc _].
    by rewrite (is_snake_not_capital c Hc).
Qed.

(** X5. The style is [camelCase] exactly when the name, its leading
    underscores removed, starts with a small letter or a digit, is made of
    letters and digits only, and has a capital. *)
Theorem real_case_camelCase (name : string) :
  real_case name = Return "camelCase" ↔
  ∃ c rest,
    lstrip "_" name = String c rest ∧
    is_small c = true ∧ all_chars is_alnum rest = true ∧
    some_char is_capital rest = true.
Proof.
  rewrite (real_case_at 2 _ _ name eq_refl), fullmatch_camelCase.
  unfold CASES. cbn [take]. rewrite Forall_cons, Forall_singleton. cbn [fst].
  rewrite fullmatch_MixedCase, fullmatch_snake_case.
  destruct (lstrip "_" name) as [| c rest].
  { split; [intros [? _]; done | intros (? & ? & ? & _); done]. }
  assert (Hall : is_small c = true → all_chars is_alnum rest = true →
                 all_chars is_snake (String c rest) = negb (some_char is_capital rest)).
  { intros Hc Hrest. rewrite all_chars_snake_capital.
    - cbn [some_char]. by rewrite (is_small_not_capital c Hc).
    - cbn [all_chars]. by rewrite (is_small_alnum c Hc), Hrest. }
  split.
  - intros ([Hc Hrest]%andb_prop & _ & Hsnake). exists c, rest.
    rewrite (Hall Hc Hrest) in Hsnake. split_and!; try done.
    by destruct (some_char is_capital rest).
  - intros (c' & rest' & [= <- <-] & Hc & Hrest & Hcap).
    rewrite (Hall Hc Hrest), Hc, Hrest, Hcap, (is_small_not_capital c Hc). done.
Qed.

(** *** Characters no pattern takes *)

Lemma all_chars_app p s1 s2 :
  all_chars p (s1 +:+ s2) = all_chars p s1 && all_chars p s2.
Proof.
  induction s1 as [| c s1 IH]; [done |].
  change (p c && all_chars p (s1 +:+ s2) = p c && all_chars p s1 && all_chars p s2).
  rewrite IH. apply andb_assoc.
Qed.

Lemma all_chars_impl (p q : ascii → bool) s :
  (∀ c, p c = true → q c = true) → all_chars p s = true → all_chars q s = true.
Proof.
  intros Hpq. induction s as [| c s IH]; [done |]. cbn [all_chars].
  intros [Hc Hs]%andb_prop. by rewrite (Hpq c Hc), (IH Hs).
Qed.

Lemma matches_accepts r s : matches r s → all_chars (accepts r) s = true.
Proof.
  induction 1 as [ | c | c items Hc | r1 r2 s1 s2 _ IH1 _ IH2 | r1 r2 s _ IH
                 | r1 r2 s _ IH | r | r s1 s2 _ IH1 _ IH2 | r s1 s2 _ IH1 _ IH2
                 | r s _ IH ];
    rewrite ?all_chars_app; try apply andb_true_intro; try split;
    try reflexivity; try assumption;
    try (eapply all_chars_impl; [| eassumption];
         intros ? Hin; cbn [accepts]; rewrite ?Hin, ?orb_true_r; reflexivity).
  cbn [all_chars accepts]. by rewrite Ascii.eqb_refl.
Qed.

Lemma CASES_accepts c :
  is_name_char c = false → Forall (λ e, accepts e.1 c = false) CASES.
Proof.
  destruct c as [[] [] [] [] [] [] [] []]; intros Hc; try discriminate Hc;
    repeat constructor.
Qed.

Lemma all_chars_lstrip name :
  all_chars is_name_char name = false →
  all_chars is_name_char (lstrip "_" name) = false.
Proof.
  induction name as [| c name IH]; [done |]. cbn [lstrip string_mem].
  rewrite orb_false_r. destruct (Ascii.eqb_spec c "_") as [-> | _]; [| done].
  exact IH.
Qed.

Lemma all_chars_false p s :
  all_chars p s = false → ∃ s1 c s2, s = s1 +:+ String c s2 ∧ p c = false.
Proof.
  induction s as [| c s IH]; [done |]. cbn [all_chars].
  destruct (p c) eqn:Hc.
  - intros (s1 & c' & s2 & -> & Hc')%IH. by exists (String c s1), c', s2.
  - intros _. by exists "", c, s.
Qed.

(** X6. A name with a character other than a letter, a digit, an underscore
    or a dot has no style: [real_case] raises on it. *)
Theorem real_case_foreign_character (name : string) :
  all_chars is_name_char name = false →
  real_case name = Raise (ValueError ("Word " +:+ name +:+ " have no case")).
Proof.
  intros (s1 & c & s2 & Hs & Hc)%all_chars_lstrip%all_chars_false.
  apply real_case_loop_raise. split; [| done].
  pose proof (CASES_accepts c Hc) as Hno.
  eapply Forall_impl; [exact Hno |]. intros e He Hm. simpl in He.
  apply matches_accepts in Hm. rewrite Hs, all_chars_app in Hm.
  cbn [all_chars] in Hm. rewrite He in Hm. simpl in Hm.
  by rewrite andb_false_r in Hm.
Qed.

Lemma real_case_foreign_character_witness :
  all_chars is_name_char "get-value" = false ∧
  real_case "get-value" = Raise (ValueError "Word get-value have no case").
Proof.
  split; [reflexivity | apply (real_case_foreign_character "get-value"); reflexivity].
Defined.

(** ** More on [expected_case] *)

(** X7. The style expected for an object is [MixedCase] when it is a class,
    [snake_case] when it is not a class and is a function or a module, and
    [UPPER_CASE] in every other case, whatever the library name.  The test of
    the built-in types of constants changes nothing: without the fourth
    item of the dict the result is the same. *)
Theorem expected_case_by_kind (obj : object) (lib_name : string) :
  (expected_case obj lib_name = Return "MixedCase" ↔ isclass obj = true) ∧
  (expected_case obj lib_name = Return "snake_case" ↔
     isclass obj = false ∧ (isfunction obj || ismodule obj) = true) ∧
  (expected_case obj lib_name = Return "UPPER_CASE" ↔
     isclass obj = false ∧ isfunction obj = false ∧ ismodule obj = false) ∧
  expected_case_loop (delete 3 type_to_case) obj lib_name = expected_case obj lib_name.
Proof.
  unfold expected_case, type_to_case. cbn [expected_case_loop delete list_delete].
  rewrite isclass_type_.
  destruct (isclass obj), (isfunction obj), (ismodule obj);
    repeat case_match; simpl; intuition congruence.
Qed.

(** ** More on [objects_in_lib] *)

Lemma startswith_dunder name :
  startswith "__" name = false ↔ ∀ rest, name ≠ String "_" (String "_" rest).
Proof.
  unfold startswith. destruct name as [| c1 [| c2 name]]; cbn [String.prefix].
  - split; [intros _ rest; discriminate | reflexivity].
  - split; [intros _ rest; discriminate |].
    intros _. by destruct (ascii_dec "_" c1).
  - destruct (ascii_dec "_" c1) as [<- | Hc1].
    + destruct (ascii_dec "_" c2) as [<- | Hc2].
      * assert (String.prefix "" name = true) as -> by (by destruct name).
        split; [discriminate | intros H; by destruct (H name)].
      * split; [| reflexivity]. intros _ rest [= ? _]. by destruct Hc2.
    + split; [| reflexivity]. intros _ rest [= ? _]. by destruct Hc1.
Qed.

(** X8. [objects_in_lib] yields the pair of an object and its name exactly
    when the library can be imported, the name is bound to the object in its
    [__dict__] and the name does not start with two underscores, whatever
    it ends with; a library that cannot be imported yields nothing. *)
Theorem objects_in_lib_elem import_module (lib_name : string) (obj : object)
    (obj_name : string) :
  (obj, obj_name) ∈ objects_in_lib import_module lib_name ↔
  ∃ dict,
    import_module lib_name = Module dict ∧
    (obj_name, obj) ∈ dict ∧
    ∀ rest, obj_name ≠ String "_" (String "_" rest).
Proof.
  unfold objects_in_lib. destruct (import_module lib_name) as [msg | dict].
  - split; [by intros ?%elem_of_nil | by intros (? & ? & _)].
  - rewrite list_elem_of_fmap. setoid_rewrite list_elem_of_filter. split.
    + intros ([name' obj'] & [= -> ->] & Hname & Hin). exists dict.
      split_and!; [done | done |]. by apply startswith_dunder.
    + intros (dict' & [= <-] & Hin & Hname). exists (obj_name, obj).
      split_and!; [done | | done]. by apply startswith_dunder.
Qed.

Lemma objects_in_lib_no_dunder import_module lib_name obj obj_name :
  (obj, obj_name) ∈ objects_in_lib import_module lib_name →
  startswith "__" obj_name = false.
Proof.
  unfold objects_in_lib. destruct (import_module lib_name) as [msg | dict].
  - by intros ?%elem_of_nil.
  - rewrite list_elem_of_fmap. setoid_rewrite list_elem_of_filter.
    by intros ([name' obj'] & [= -> ->] & Hname & Hin).
Qed.

(** X9. Among the names [objects_in_lib] yields, only the name [_] and the
    empty name are of the style ["_"]: a longer run of underscores starts
    with two of them and is not yielded. *)
Theorem objects_in_lib_underscore import_module (lib_name : string) (obj : object)
    (obj_name : string) :
  (obj, obj_name) ∈ objects_in_lib import_module lib_name →
  real_case obj_name = Return "_" →
  obj_name = "" ∨ obj_name = "_".
Proof.
  intros Hin%objects_in_lib_no_dunder [k ->]%real_case_underscore_label%lstrip_empty.
  destruct k as [| [| k]]; [by left | by right |].
  rewrite startswith_dunder in Hin. by destruct (Hin (repeat_char "_" k)).
Qed.

Lemma objects_in_lib_underscore_witness :
  (a_function, "_") ∈ objects_in_lib gettext_import "gettext" ∧
  real_case "_" = Return "_" ∧
  ("_" = "" ∨ "_" = "_").
Proof.
  assert (Hin : (a_function, "_") ∈ objects_in_lib gettext_import "gettext")
    by (vm_compute; apply list_elem_of_here).
  split_and!; [exact Hin | reflexivity |].
  apply (objects_in_lib_underscore gettext_import "gettext" a_function "_");
    [exact Hin | reflexivity].
Defined.

(** ** More on the main loop *)

Section AtKey.
Context {V : Type}.
Implicit Types d : gmap string V.

Lemma at_key_at_key (missing : V) k (f g : V → V) d :
  at_key missing k g (at_key missing k f d) = at_key missing k (λ x, g (f x)) d.
Proof.
  unfold at_key, getitem. by rewrite lookup_insert_eq, insert_insert_eq.
Qed.

Lemma at_key_ext (missing : V) k (f g : V → V) d :
  (∀ x, f x = g x) → at_key missing k f d = at_key missing k g d.
Proof. intros Hfg. unfold at_key. by rewrite Hfg. Qed.

Lemma at_key_comm (missing : V) k1 k2 (f g : V → V) d :
  (k1 = k2 → ∀ x, f (g x) = g (f x)) →
  at_key missing k1 f (at_key missing k2 g d) =
  at_key missing k2 g (at_key missing k1 f d).
Proof.
  intros Hfg. destruct (decide (k1 = k2)) as [<- | Hne].
  - rewrite !at_key_at_key. apply at_key_ext. by apply Hfg.
  - unfold at_key, getitem. rewrite !lookup_insert_ne by done.
    by apply insert_insert_ne.
Qed.

Lemma lookup_at_key (missing : V) k (f : V → V) d k' :
  at_key missing k f d !! k' =
  if decide (k = k') then Some (f (getitem missing k d)) else d !! k'.
Proof.
  unfold at_key. case_decide as Hk.
  - subst k'. apply lookup_insert_eq.
  - by apply lookup_insert_ne.
Qed.

End AtKey.

Lemma at_key3_vivified {V} (missing : V) lib e r (f : V → V)
    (d : gmap string (gmap string (gmap string V))) :
  at_key ∅ lib (at_key ∅ e (at_key missing r f))
    (at_key ∅ lib (at_key ∅ e id) (at_key ∅ lib id d)) =
  at_key ∅ lib (at_key ∅ e (at_key missing r f)) d.
Proof.
  rewrite !at_key_at_key. apply at_key_ext. intros d1. unfold id.
  by rewrite at_key_at_key.
Qed.

(** One turn of the loop on an observation whose name has a style. *)
Lemma record_styled lib obj name t :
  styled (lib, obj, name) →
  record lib obj name t = (Return tt, file_obs t (lib, obj, name)).
Proof.
  intros [r Hr]. destruct (expected_case_returns obj) as [e He].
  unfold record, file_obs, file, mbind, M_bind, bind, call, on_acc, on_counter.
  simpl in *. rewrite He, Hr. simpl. by rewrite !at_key3_vivified.
Qed.

(** One turn of the loop on an observation whose name has no style: the
    exception of [real_case] goes up, and only empty dicts have been added
    to [acc]. *)
Lemma record_raise lib obj name t e :
  real_case name = Raise e →
  ∃ t',
    record lib obj name t = (Raise e, t') ∧
    counter t' = counter t ∧
    ∀ lib' e', lookup2 (acc t') lib' e' = lookup2 (acc t) lib' e'.
Proof.
  intros Hr. destruct (expected_case_returns obj) as [e0 He].
  unfold record, mbind, M_bind, bind, call, on_acc, on_counter.
  simpl. rewrite He, Hr. simpl. eexists. split_and!; [done | done |].
  intros lib' e'. simpl. by rewrite lookup2_at_key_id2, lookup2_at_key_id.
Qed.

Lemma consistent_lookup2 obs t t' :
  counter t' = counter t →
  (∀ lib e, lookup2 (acc t') lib e = lookup2 (acc t) lib e) →
  consistent obs t → consistent obs t'.
Proof.
  intros Hc Ha Hinv lib e. rewrite Hc. setoid_rewrite Ha. apply Hinv.
Qed.

(** *** The two loops are one loop over the observations *)

Lemma for_obs_app obs1 obs2 t :
  for_obs (obs1 ++ obs2) t =
  match for_obs obs1 t with
  | (Return _, t1) => for_obs obs2 t1
  | (Raise e, t1) => (Raise e, t1)
  end.
Proof.
  revert t. induction obs1 as [| [[lib obj] name] obs1 IH]; intros t; [done |].
  cbn [app for_obs]. unfold mbind, M_bind, bind.
  destruct (record lib obj name t) as [[[] | e] t1]; [apply IH | done].
Qed.

Lemma for_objects_for_obs lib objects t :
  for_objects lib objects t = for_obs ((λ o, (lib, o.1, o.2)) <$> objects) t.
Proof.
  revert t. induction objects as [| [obj name] objects IH]; intros t; [done |].
  cbn [for_objects fmap list_fmap for_obs]. simpl. unfold mbind, M_bind, bind.
  destruct (record lib obj name t) as [[[] | e] t1]; [apply IH | done].
Qed.

Lemma for_libs_for_obs import_module libs t :
  for_libs import_module libs t = for_obs (observations import_module libs) t.
Proof.
  revert t. induction libs as [| lib libs IH]; intros t; [done |].
  rewrite observations_cons, for_obs_app, <- for_objects_for_obs.
  cbn [for_libs]. unfold mbind, M_bind, bind.
  destruct (for_objects lib _ t) as [[[] | e] t1]; [apply IH | done].
Qed.

Lemma for_obs_styled obs : ∀ t,
  Forall styled obs → for_obs obs t = (Return tt, foldl file_obs t obs).
Proof.
  induction obs as [| [[lib obj] name] obs IH]; intros t Hall; [done |].
  apply Forall_cons in Hall as [Ho Hall].
  cbn [for_obs foldl]. unfold mbind, M_bind, bind.
  rewrite (record_styled lib obj name t Ho). by apply IH.
Qed.

Lemma for_obs_return obs : ∀ t t',
  for_obs obs t = (Return tt, t') → Forall styled obs.
Proof.
  induction obs as [| [[lib obj] name] obs IH]; intros t t' Hrun; [constructor |].
  cbn [for_obs] in Hrun. unfold mbind, M_bind, bind in Hrun.
  destruct (real_case name) as [r | e] eqn:Hr.
  - constructor; [by exists r | ].
    destruct (record lib obj name t) as [[[] | ?] t1]; [by eapply IH | done].
  - destruct (record_raise lib obj name t e Hr) as (t1 & Hrec & _).
    by rewrite Hrec in Hrun.
Qed.

Lemma for_obs_abort obs : ∀ seen t e t',
  consistent seen t →
  for_obs obs t = (Raise e, t') →
  ∃ pre o post,
    obs = pre ++ o :: post ∧ Forall styled pre ∧
    real_case o.2 = Raise e ∧ consistent (seen ++ pre) t'.
Proof.
  induction obs as [| [[lib obj] name] obs IH]; intros seen t e t' Hinv Hrun; [done |].
  cbn [for_obs] in Hrun. unfold mbind, M_bind, bind in Hrun.
  destruct (real_case name) as [r | e0] eqn:Hr.
  - assert (Ho : styled (lib, obj, name)) by (by exists r).
    pose proof (record_styled lib obj name t Ho) as Hrec.
    rewrite Hrec in Hrun.
    destruct (IH (seen ++ [(lib, obj, name)]) (file_obs t (lib, obj, name)) e t')
      as (pre & o & post & -> & Hpre & Hraise & Hinv').
    + by eapply consistent_record.
    + done.
    + exists ((lib, obj, name) :: pre), o, post. split_and!; try done.
      * by constructor.
      * by rewrite cons_middle, app_assoc.
  - destruct (record_raise lib obj name t e0 Hr) as (t1 & Hrec & Hc & Ha).
    rewrite Hrec in Hrun. injection Hrun as <- <-.
    exists [], (lib, obj, name), obs. split_and!; [done | constructor | done |].
    rewrite app_nil_r. by eapply consistent_lookup2.
Qed.

Lemma main_for_obs import_module libs_names :
  main import_module libs_names =
  for_obs (observations import_module libs_names) empty_tables.
Proof. apply for_libs_for_obs. Qed.

Lemma consistent_for_obs obs : ∀ seen t t',
  consistent seen t →
  for_obs obs t = (Return tt, t') →
  consistent (seen ++ obs) t'.
Proof.
  induction obs as [| [[lib obj] name] obs IH]; intros seen t t' Hinv Hrun.
  - injection Hrun as <-. by rewrite app_nil_r.
  - cbn [for_obs] in Hrun. unfold mbind, M_bind, bind in Hrun.
    destruct (record lib obj name t) as [[[] | ?] t1] eqn:Hrec; [| done].
    rewrite cons_middle, app_assoc. eapply IH; [| exact Hrun].
    by eapply consistent_record.
Qed.

(** X11. Over any sequence of observations, when the body of the loop
    raises, the exception is the [ValueError] of [real_case] on the first
    name of the sequence that has no style, and the tables are those of the
    observations before it: the counts and the sets hold these observations
    and no other. *)
Theorem loop_stops_at_first_unstyled (obs : list (string * object * string))
    (e : exn) (t : tables) :
  for_obs obs empty_tables = (Raise e, t) →
  ∃ pre lib_name obj obj_name post,
    obs = pre ++ (lib_name, obj, obj_name) :: post ∧
    Forall styled pre ∧
    real_case obj_name = Raise e ∧
    e = ValueError ("Word " +:+ obj_name +:+ " have no case") ∧
    consistent pre t.
Proof.
  intros Hrun.
  destruct (for_obs_abort _ [] _ _ _ consistent_empty Hrun)
    as (pre & [[lib obj] name] & post & Hobs & Hpre & Hraise & Hinv).
  exists pre, lib, obj, name, post. split_and!; try done.
  simpl in Hraise. by apply real_case_loop_raise in Hraise as [_ ->].
Qed.

Lemma loop_stops_at_first_unstyled_witness :
  let run := for_obs unstyled_obs empty_tables in
  run = (Raise (ValueError "Word fooBar_BAZ have no case"), run.2) ∧
  ∃ pre lib_name obj obj_name post,
    unstyled_obs = pre ++ (lib_name, obj, obj_name) :: post ∧
    Forall styled pre ∧
    real_case obj_name = Raise (ValueError "Word fooBar_BAZ have no case") ∧
    ValueError "Word fooBar_BAZ have no case" =
      ValueError ("Word " +:+ obj_name +:+ " have no case") ∧
    consistent pre run.2.
Proof.
  intros run.
  assert (Hrun : run = (Raise (ValueError "Word fooBar_BAZ have no case"), run.2))
    by (vm_compute; reflexivity).
  split; [exact Hrun |].
  exact (loop_stops_at_first_unstyled unstyled_obs _ _ Hrun).
Defined.

(** *** The order of the observations *)

Lemma file_comm lib1 e1 r1 x1 lib2 e2 r2 x2 t :
  file lib1 e1 r1 x1 (file lib2 e2 r2 x2 t) = file lib2 e2 r2 x2 (file lib1 e1 r1 x1 t).
Proof.
  unfold file. simpl. f_equal.
  - apply at_key_comm. intros _ d1. apply at_key_comm. intros _ d2.
    apply at_key_comm. intros _ s.
    rewrite !(assoc_L (∪)). f_equal. apply (comm_L (∪)).
  - apply at_key_comm. intros _ d1. apply at_key_comm. intros _ d2.
    by apply at_key_comm.
Qed.

Lemma file_obs_comm t o1 o2 :
  file_obs (file_obs t o1) o2 = file_obs (file_obs t o2) o1.
Proof.
  unfold file_obs.
  destruct (expected_case o1.1.2 ""), (real_case o1.2),
    (expected_case o2.1.2 ""), (real_case o2.2); try done.
  apply file_comm.
Qed.

Lemma foldl_file_obs_Permutation obs1 obs2 :
  obs1 ≡ₚ obs2 → ∀ t, foldl file_obs t obs1 = foldl file_obs t obs2.
Proof.
  induction 1 as [| o obs1 obs2 _ IH | o1 o2 obs | obs1 obs2 obs3 _ IH1 _ IH2];
    intros t; simpl.
  - done.
  - apply IH.
  - by rewrite file_obs_comm.
  - by rewrite IH1.
Qed.

(** X12. The order of the run does not matter when every name has a
    style: two runs whose observations are the same up to their order, be it
    the order of the libraries or of the names in a library, end with the
    same two tables. *)
Theorem main_order import_module import_module' (libs_names libs_names' : list string) :
  observations import_module' libs_names' ≡ₚ observations import_module libs_names →
  Forall styled (observations import_module libs_names) →
  main import_module' libs_names' = main import_module libs_names.
Proof.
  intros Hperm Hall. rewrite !main_for_obs.
  rewrite !for_obs_styled; [| done | by rewrite Hperm].
  f_equal. by apply foldl_file_obs_Permutation.
Qed.

Lemma main_order_witness :
  observations gettext_import ["gettext"; "logging"] ≡ₚ
    observations gettext_import ["logging"; "gettext"] ∧
  Forall styled (observations gettext_import ["logging"; "gettext"]) ∧
  main gettext_import ["gettext"; "logging"] = main gettext_import ["logging"; "gettext"].
Proof.
  assert (Hperm : observations gettext_import ["gettext"; "logging"] ≡ₚ
                  observations gettext_import ["logging"; "gettext"]).
  { rewrite !observations_cons.
    change (observations gettext_import []) with (@nil (string * object * string)).
    rewrite !app_nil_r. apply Permutation_app_comm. }
  assert (Hall : Forall styled (observations gettext_import ["logging"; "gettext"])).
  { apply Forall_forall. intros o Ho. vm_compute in Ho.
    repeat (apply elem_of_cons in Ho as [-> | Ho]; [eexists; reflexivity |]).
    by apply elem_of_nil in Ho. }
  split_and!; [exact Hperm | exact Hall |].
  exact (main_order gettext_import gettext_import _ _ Hperm Hall).
Defined.

(** *** The keys of the tables after the run *)

Lemma simplify_id {V} (d : gmap string (gmap string (gmap string V))) : simplify d = d.
Proof.
  unfold simplify. etrans; [| apply map_fmap_id]. apply map_fmap_ext.
  intros lib expcs _. etrans; [| apply map_fmap_id]. apply map_fmap_ext.
  intros e realcs _. apply map_fmap_id.
Qed.

Lemma file_obs_keys t o lib :
  styled o →
  (is_Some (counter (file_obs t o) !! lib) ↔ o.1.1 = lib ∨ is_Some (counter t !! lib)) ∧
  (is_Some (acc (file_obs t o) !! lib) ↔ o.1.1 = lib ∨ is_Some (acc t !! lib)).
Proof.
  intros [r Hr]. destruct (expected_case_returns o.1.2) as [e He].
  unfold file_obs, file. rewrite He, Hr. simpl. rewrite !lookup_at_key.
  split; (case_decide; [split; [by left | by eexists] | split; [by right | by intros [? | ?]]]).
Qed.

Lemma foldl_file_obs_keys obs lib : ∀ t,
  Forall styled obs →
  (is_Some (counter (foldl file_obs t obs) !! lib) ↔
     is_Some (counter t !! lib) ∨ ∃ o, o ∈ obs ∧ o.1.1 = lib) ∧
  (is_Some (acc (foldl file_obs t obs) !! lib) ↔
     is_Some (acc t !! lib) ∨ ∃ o, o ∈ obs ∧ o.1.1 = lib).
Proof.
  induction obs as [| o obs IH]; intros t Hall; simpl.
  - split; (split; [by left | intros [? | (? & ?%elem_of_nil & _)]; done]).
  - apply Forall_cons in Hall as [Ho Hall].
    destruct (IH (file_obs t o) Hall) as [-> ->].
    destruct (file_obs_keys t o lib Ho) as [-> ->].
    split; (split;
      [ intros [[? | ?] | (o' & Hin & ?)];
        [ right; exists o; split; [apply list_elem_of_here | done]
        | by left
        | right; exists o'; split; [by apply list_elem_of_further | done] ]
      | intros [? | (o' & [-> | Hin]%elem_of_cons & ?)];
        [ left; by right | left; by left | right; by exists o' ] ]).
Qed.

Lemma observations_of_lib import_module libs lib :
  (∃ o, o ∈ observations import_module libs ∧ o.1.1 = lib) ↔
  lib ∈ libs ∧ objects_in_lib import_module lib ≠ [].
Proof.
  unfold observations. setoid_rewrite list_elem_of_bind.
  setoid_rewrite list_elem_of_fmap. split.
  - intros (o & (lib' & (x & -> & Hx) & Hin) & Hlib). simpl in Hlib. subst lib'.
    split; [done |]. intros Hnil. rewrite Hnil in Hx. by apply elem_of_nil in Hx.
  - intros [Hin Hne]. destruct (objects_in_lib import_module lib) as [| x xs] eqn:Hobjs; [done |].
    exists (lib, x.1, x.2). split; [| done]. exists lib. split; [| done].
    exists x. rewrite Hobjs. split; [done | apply list_elem_of_here].
Qed.

(** X13. After a run that went to its end and the copy into plain dicts, a
    library is a key of [counter], and of [acc], exactly when it is in the
    list and [objects_in_lib] yields at least one object for it: reading
    [counter['csv']] finds the key only then. *)
Theorem main_keys import_module (libs_names : list string) (t : tables) (lib : string) :
  main import_module libs_names = (Return tt, t) →
  (is_Some (simplify (counter t) !! lib) ↔
     lib ∈ libs_names ∧ objects_in_lib import_module lib ≠ []) ∧
  (is_Some (simplify (acc t) !! lib) ↔
     lib ∈ libs_names ∧ objects_in_lib import_module lib ≠ []).
Proof.
  rewrite main_for_obs. intros Hrun.
  pose proof (for_obs_return _ _ _ Hrun) as Hall.
  rewrite (for_obs_styled _ _ Hall) in Hrun. injection Hrun as <-.
  rewrite !simplify_id, <- observations_of_lib.
  destruct (foldl_file_obs_keys (observations import_module libs_names) lib
              empty_tables Hall) as [-> ->].
  simpl. rewrite !lookup_empty.
  split; (split; [intros [[? [=]] | ?]; done | by right]).
Qed.

Lemma main_keys_witness :
  main tiny_import ["tiny"; "nope"] = (Return tt, (main tiny_import ["tiny"; "nope"]).2) ∧
  (is_Some (simplify (counter (main tiny_import ["tiny"; "nope"]).2) !! "nope") ↔
     "nope" ∈ ["tiny"; "nope"] ∧ objects_in_lib tiny_import "nope" ≠ []) ∧
  (is_Some (simplify (acc (main tiny_import ["tiny"; "nope"]).2) !! "nope") ↔
     "nope" ∈ ["tiny"; "nope"] ∧ objects_in_lib tiny_import "nope" ≠ []).
Proof.
  split; [vm_compute; reflexivity |].
  apply (main_keys tiny_import ["tiny"; "nope"] (main tiny_import ["tiny"; "nope"]).2 "nope").
  vm_compute; reflexivity.
Defined.

(** *** A list in which the libraries are written twice *)

Lemma count_of_twice l : count_of (l ++ l) = (λ n, 2 * n) <$> count_of l.
Proof.
  destruct l as [| x l]; [done |]. simpl. rewrite length_app. simpl.
  do 2 f_equal. lia.
Qed.

Lemma set_of_twice l : set_of (l ++ l) = set_of l.
Proof.
  destruct l as [| x l]; [done |].
  change (Some (list_to_set ((x :: l) ++ x :: l) : gset (object * string)) =
          Some (list_to_set (x :: l))).
  by rewrite list_to_set_app_L, (idemp_L (∪)).
Qed.

(** X14. Nothing is removed when observations are met again: the loop over
    a sequence of observations written twice doubles every count of the loop
    over the sequence and leaves every set as it is. *)
Theorem loop_twice (obs : list (string * object * string)) (t1 : tables) :
  for_obs obs empty_tables = (Return tt, t1) →
  ∃ t2,
    for_obs (obs ++ obs) empty_tables = (Return tt, t2) ∧
    ∀ lib e r,
      lookup3 (counter t2) lib e r = (λ n, 2 * n) <$> lookup3 (counter t1) lib e r ∧
      lookup3 (acc t2) lib e r = lookup3 (acc t1) lib e r.
Proof.
  intros Hrun1.
  pose proof (consistent_for_obs _ _ _ _ consistent_empty Hrun1) as Hinv1.
  pose proof (for_obs_return _ _ _ Hrun1) as Hall.
  assert (Hrun2 : for_obs (obs ++ obs) empty_tables =
                  (Return tt, foldl file_obs empty_tables (obs ++ obs))).
  { apply for_obs_styled. by apply Forall_app. }
  eexists. split; [exact Hrun2 |]. intros lib e r.
  pose proof (consistent_for_obs _ _ _ _ consistent_empty Hrun2) as Hinv2.
  rewrite !app_nil_l in *.
  destruct (Hinv1 lib e) as [_ Hpath1]. destruct (Hpath1 r) as [Hc1 Hs1].
  destruct (Hinv2 lib e) as [_ Hpath2]. destruct (Hpath2 r) as [Hc2 Hs2].
  rewrite !lookup3_lookup2, Hc1, Hs1, Hc2, Hs2.
  assert (Hpairs : pairs (obs ++ obs) lib e r = pairs obs lib e r ++ pairs obs lib e r).
  { unfold pairs. by rewrite filter_app, fmap_app. }
  rewrite Hpairs. split; [apply count_of_twice | apply set_of_twice].
Qed.

Lemma loop_twice_witness :
  for_obs styled_obs empty_tables = (Return tt, (for_obs styled_obs empty_tables).2) ∧
  ∃ t2,
    for_obs (styled_obs ++ styled_obs) empty_tables = (Return tt, t2) ∧
    ∀ lib e r,
      lookup3 (counter t2) lib e r =
        (λ n, 2 * n) <$> lookup3 (counter (for_obs styled_obs empty_tables).2) lib e r ∧
      lookup3 (acc t2) lib e r = lookup3 (acc (for_obs styled_obs empty_tables).2) lib e r.
Proof.
  split; [vm_compute; reflexivity |].
  apply (loop_twice styled_obs (for_obs styled_obs empty_tables).2).
  vm_compute; reflexivity.
Defined.

(** *** When the run goes to its end *)

(** X15. Over any sequence of observations, the loop goes to its end exactly
    when every name of the sequence has a style, and its tables are then
    those obtained by filing the observations one after the other, from the
    two empty tables. *)
Theorem loop_returns_iff (obs : list (string * object * string)) :
  ((∃ t, for_obs obs empty_tables = (Return tt, t)) ↔ Forall styled obs) ∧
  (∀ t, for_obs obs empty_tables = (Return tt, t) →
        t = foldl file_obs empty_tables obs).
Proof.
  split; [split |].
  - intros [t Hrun]. by eapply for_obs_return.
  - intros Hall. eexists. by apply for_obs_styled.
  - intros t Hrun. pose proof (for_obs_return _ _ _ Hrun) as Hall.
    rewrite (for_obs_styled _ _ Hall) in Hrun. by injection Hrun as <-.
Qed.

Lemma real_case_return_label name case :
  real_case name = Return case → case ∈ CASES.*2.
Proof.
  intros (pre & reg & post & Heq & _)%real_case_loop_return.
  rewrite Heq, fmap_app, fmap_cons. simpl.
  apply elem_of_app. right. apply elem_of_cons. by left.
Qed.

Lemma expected_case_return_label obj lib_name case :
  expected_case obj lib_name = Return case →
  case ∈ ["MixedCase"; "snake_case"; "UPPER_CASE"].
Proof.
  unfold expected_case, type_to_case. cbn [expected_case_loop].
  repeat case_match; intros [= <-]; set_solver.
Qed.

(** X16. After a run that went to its end, a path of [counter] holds a
    count of one at least, its library is in the list, its expected style is
    one of [MixedCase], [snake_case], [UPPER_CASE], and its real style is
    one of the styles of the catalogue. *)
Theorem main_counter_paths import_module (libs_names : list string) (t : tables)
    (lib e r : string) (n : nat) :
  main import_module libs_names = (Return tt, t) →
  lookup3 (counter t) lib e r = Some n →
  (0 < n)%nat ∧
  lib ∈ libs_names ∧
  e ∈ ["MixedCase"; "snake_case"; "UPPER_CASE"] ∧
  r ∈ [ "MixedCase"; "snake_case"; "camelCase"; "Mixed_snake_case"; "UPPER_CASE";
        "Mixed_Snake_Case"; "snakeCamel_case"; "changing_CASE"; "Py_CASES";
        "LOWFINAL_CAse"; "VERSIONv1.1_CASE"; "_" ].
Proof.
  intros Hrun Hn.
  pose proof (consistent_for_libs _ _ _ _ _ consistent_empty Hrun) as Hinv.
  rewrite app_nil_l in Hinv. destruct (Hinv lib e) as [_ Hpath].
  destruct (Hpath r) as [Hc _]. rewrite lookup3_lookup2, Hc in Hn.
  unfold pairs in Hn.
  destruct (filter (on_path lib e r) (observations import_module libs_names))
    as [| o l] eqn:Hf; [done |].
  assert (Ho : o ∈ filter (on_path lib e r) (observations import_module libs_names))
    by (rewrite Hf; apply list_elem_of_here).
  apply list_elem_of_filter in Ho as [(Hlib & He & Hr) Ho].
  injection Hn as <-. split_and!.
  - simpl. lia.
  - eapply observations_of_lib. by exists o.
  - by eapply expected_case_return_label.
  - rewrite <- CASES_labels. by eapply real_case_return_label.
Qed.

Lemma main_counter_paths_witness :
  main tiny_import ["tiny"] = (Return tt, (main tiny_import ["tiny"]).2) ∧
  lookup3 (counter (main tiny_import ["tiny"]).2) "tiny" "UPPER_CASE" "snake_case" = Some 1 ∧
  (0 < 1)%nat ∧
  "tiny" ∈ ["tiny"] ∧
  "UPPER_CASE" ∈ ["MixedCase"; "snake_case"; "UPPER_CASE"] ∧
  "snake_case" ∈ [ "MixedCase"; "snake_case"; "camelCase"; "Mixed_snake_case";
                   "UPPER_CASE"; "Mixed_Snake_Case"; "snakeCamel_case"; "changing_CASE";
                   "Py_CASES"; "LOWFINAL_CAse"; "VERSIONv1.1_CASE"; "_" ].
Proof.
  split; [vm_compute; reflexivity |]. split; [vm_compute; reflexivity |].
  apply (main_counter_paths tiny_import ["tiny"] (main tiny_import ["tiny"]).2
           "tiny" "UPPER_CASE" "snake_case" 1); vm_compute; reflexivity.
Defined.
